(** * Push/pull synchronisation endpoint (src/server/routers/sync.ts)

    A shallow embedding of the two handlers of [syncRouter]:
    [pushChanges] (lines 53-149) and [pullChanges] (lines 173-239), together
    with the part of the JavaScript runtime they rely on ([JSON.parse],
    truthiness, the relational comparison [migration?.from < 2]).

    Conventions.
    - The [task] table is a list of rows in table order; the primary key
      [id] is enforced by the write operations ([createMany] rejects a
      duplicate key, [update] rejects a missing row), as the record store
      does.
    - Numbers of the request ([lastPulledAt], [schemaVersion]) are integers
      or NaN; timestamps of records are integers (epoch milliseconds).
    - [Date.now()] is an input of each handler ([now]).
    - A JavaScript string is a sequence of code units; request strings are
      Rocq strings, one character per code unit. *)

From Stdlib Require Import ZArith NArith List String Ascii Bool Lia Permutation.
Import ListNotations.
Open Scope Z_scope.

(** ** Results of fallible operations *)

Inductive error : Type :=
  | UniqueConstraintFailed (key : string)   (* createMany on an existing id *)
  | RecordNotFound (key : string)           (* update of a missing row *)
  | SyntaxError                             (* JSON.parse on malformed text *)
  | TypeError                               (* a value with no primitive form *)
  | ExtendedTRPCError (cause : error).      (* the wrapper thrown by push *)

Inductive result (A : Type) : Type :=
  | Ok (a : A)
  | Err (e : error).
Arguments Ok {A} a.
Arguments Err {A} e.

Definition bind {A B : Type} (m : result A) (k : A -> result B) : result B :=
  match m with
  | Ok a => k a
  | Err e => Err e
  end.

Notation "x <- m ;; k" := (bind m (fun x => k))
  (at level 61, m at next level, right associativity).

(** ** The JavaScript runtime used by the handlers *)

Module JS.

#[local] Set Warnings "-register-all".

(** A number of the request body: an integer or NaN. *)
Inductive number : Type :=
  | NaN
  | Num (z : Z).

(** [!!n] for a number: 0 and NaN are falsy. *)
Definition truthy_number (n : number) : bool :=
  match n with
  | NaN => false
  | Num z => negb (z =? 0)
  end.

(** [!!n] for [number | null]. *)
Definition truthy_nullable_number (n : option number) : bool :=
  match n with
  | None => false
  | Some v => truthy_number v
  end.

(** [n >= 2]. *)
Definition ge_two (n : number) : bool :=
  match n with
  | NaN => false
  | Num z => 2 <=? z
  end.

(** [!!s] for [string | null]: only null and the empty string are falsy. *)
Definition truthy_nullable_string (s : option string) : bool :=
  match s with
  | None => false
  | Some EmptyString => false
  | Some (String _ _) => true
  end.

(** Code units of a request string. *)
Fixpoint code_units (s : string) : list N :=
  match s with
  | EmptyString => []
  | String c r => N_of_ascii c :: code_units r
  end.

(** A numeric value before rounding to a double: NaN, an infinity, or the
    real number [m * 10^e]. The Number value is the double nearest to it
    (ties to even). *)
Inductive real : Type :=
  | RNaN
  | RInfinity (negative : bool)
  | RDec (m e : Z).

(** [x < 2] on the Number value of [x]. The doubles next to 2 are
    2 - 2^-52 and 2; the midpoint 2 - 2^-53 rounds to 2 (even
    significand), so the double nearest to a real v is below 2 exactly when
    v < 2 - 2^-53, that is v * 2^53 < 2^54 - 1. *)
Definition lt_two (x : real) : bool :=
  match x with
  | RNaN => false
  | RInfinity negative => negative
  | RDec m e =>
      if 0 <=? e then m * 10 ^ e <? 2
      else m * 2 ^ 53 <? (2 ^ 54 - 1) * 10 ^ (- e)
  end.

(** Values produced by [JSON.parse]. An object keeps its members in source
    order, duplicates included; a later member overrides an earlier one. *)
Inductive value : Type :=
  | VNull
  | VBool (b : bool)
  | VNumber (x : real)
  | VString (s : list N)
  | VArray (items : list value)
  | VObject (members : list (list N * value)).

(** *** JSON.parse: lexical analysis

    The JSON grammar of ECMA-404, as [JSON.parse] applies it. The text is
    read one code unit at a time; [lex_state] is where the lexer stands. *)

Inductive token : Type :=
  | TLBrace | TRBrace | TLBracket | TRBracket | TColon | TComma
  | TString (s : list N)
  | TNumber (x : real)
  | TTrue | TFalse | TNull.

(** Positions inside a number literal: an optional minus; then 0, or a
    digit 1-9 followed by digits; then optionally a point and one or more
    digits; then optionally e or E, an optional sign and one or more
    digits. *)
Inductive num_pos : Type :=
  | NMinus      (* after the sign, a digit must follow *)
  | NZero       (* after a leading 0 *)
  | NInt        (* inside the integer digits *)
  | NDot        (* after the point, a digit must follow *)
  | NFrac       (* inside the fraction digits *)
  | NE          (* after e or E *)
  | NESign      (* after the sign of the exponent *)
  | NExp.       (* inside the exponent digits *)

Record num_acc : Type := mkNumAcc {
  acc_negative : bool;    (* a leading minus was read *)
  acc_digits : Z;         (* integer and fraction digits, as one integer *)
  acc_scale : Z;          (* number of fraction digits *)
  acc_exp_negative : bool;
  acc_exp : Z             (* exponent digits *)
}.

Definition num_value (a : num_acc) : real :=
  RDec (if acc_negative a then - acc_digits a else acc_digits a)
       ((if acc_exp_negative a then - acc_exp a else acc_exp a) - acc_scale a).

Definition num_accepting (p : num_pos) : bool :=
  match p with
  | NZero | NInt | NFrac | NExp => true
  | NMinus | NDot | NE | NESign => false
  end.

Definition is_digit (c : N) : bool := ((48 <=? c) && (c <=? 57))%N.
Definition digit_value (c : N) : Z := Z.of_N (c - 48).

Definition push_digit (a : num_acc) (c : N) : num_acc :=
  mkNumAcc (acc_negative a) (acc_digits a * 10 + digit_value c)
           (acc_scale a) (acc_exp_negative a) (acc_exp a).

Definition push_frac_digit (a : num_acc) (c : N) : num_acc :=
  mkNumAcc (acc_negative a) (acc_digits a * 10 + digit_value c)
           (acc_scale a + 1) (acc_exp_negative a) (acc_exp a).

Definition push_exp_digit (a : num_acc) (c : N) : num_acc :=
  mkNumAcc (acc_negative a) (acc_digits a) (acc_scale a)
           (acc_exp_negative a) (acc_exp a * 10 + digit_value c).

Definition set_exp_negative (a : num_acc) : num_acc :=
  mkNumAcc (acc_negative a) (acc_digits a) (acc_scale a) true (acc_exp a).

(** One more code unit of a number literal; [None] when [c] does not
    continue the literal. *)
Definition num_step (p : num_pos) (a : num_acc) (c : N)
  : option (num_pos * num_acc) :=
  let is_e := ((c =? 101) || (c =? 69))%N in
  let is_dot := (c =? 46)%N in
  match p with
  | NMinus =>
      if (c =? 48)%N then Some (NZero, a)
      else if is_digit c then Some (NInt, push_digit a c)
      else None
  | NZero =>
      if is_dot then Some (NDot, a)
      else if is_e then Some (NE, a)
      else None
  | NInt =>
      if is_digit c then Some (NInt, push_digit a c)
      else if is_dot then Some (NDot, a)
      else if is_e then Some (NE, a)
      else None
  | NDot =>
      if is_digit c then Some (NFrac, push_frac_digit a c) else None
  | NFrac =>
      if is_digit c then Some (NFrac, push_frac_digit a c)
      else if is_e then Some (NE, a)
      else None
  | NE =>
      if (c =? 43)%N then Some (NESign, a)
      else if (c =? 45)%N then Some (NESign, set_exp_negative a)
      else if is_digit c then Some (NExp, push_exp_digit a c)
      else None
  | NESign =>
      if is_digit c then Some (NExp, push_exp_digit a c) else None
  | NExp =>
      if is_digit c then Some (NExp, push_exp_digit a c) else None
  end.

Inductive lex_state : Type :=
  | LStart                                         (* between tokens *)
  | LLiteral (rest : list N) (t : token)           (* inside true, false, null *)
  | LString (acc : list N)                         (* inside a string, reversed *)
  | LEscape (acc : list N)                         (* after a backslash *)
  | LUnicode (acc : list N) (more : nat) (v : N)   (* inside a u escape *)
  | LNumber (p : num_pos) (a : num_acc).

Definition hex_value (c : N) : option N :=
  if ((48 <=? c) && (c <=? 57))%N then Some (c - 48)%N
  else if ((97 <=? c) && (c <=? 102))%N then Some (c - 87)%N
  else if ((65 <=? c) && (c <=? 70))%N then Some (c - 55)%N
  else None.

Definition zero_acc (negative : bool) : num_acc :=
  mkNumAcc negative 0 0 false 0.

(** A code unit read between tokens. JSON white space is tab, line feed,
    carriage return and space only. *)
Definition start_step (c : N) : option (lex_state * list token) :=
  match c with
  | 9%N | 10%N | 13%N | 32%N => Some (LStart, [])
  | 123%N => Some (LStart, [TLBrace])
  | 125%N => Some (LStart, [TRBrace])
  | 91%N => Some (LStart, [TLBracket])
  | 93%N => Some (LStart, [TRBracket])
  | 58%N => Some (LStart, [TColon])
  | 44%N => Some (LStart, [TComma])
  | 34%N => Some (LString [], [])
  | 45%N => Some (LNumber NMinus (zero_acc true), [])
  | 48%N => Some (LNumber NZero (zero_acc false), [])
  | 116%N => Some (LLiteral [114; 117; 101]%N TTrue, [])
  | 102%N => Some (LLiteral [97; 108; 115; 101]%N TFalse, [])
  | 110%N => Some (LLiteral [117; 108; 108]%N TNull, [])
  | _ =>
      if is_digit c
      then Some (LNumber NInt (push_digit (zero_acc false) c), [])
      else None
  end.

Definition escape_step (acc : list N) (c : N) : option lex_state :=
  match c with
  | 34%N => Some (LString (34 :: acc)%N)
  | 92%N => Some (LString (92 :: acc)%N)
  | 47%N => Some (LString (47 :: acc)%N)
  | 98%N => Some (LString (8 :: acc)%N)
  | 102%N => Some (LString (12 :: acc)%N)
  | 110%N => Some (LString (10 :: acc)%N)
  | 114%N => Some (LString (13 :: acc)%N)
  | 116%N => Some (LString (9 :: acc)%N)
  | 117%N => Some (LUnicode acc 3 0%N)
  | _ => None
  end.

Definition lex_step (st : lex_state) (c : N) : option (lex_state * list token) :=
  match st with
  | LStart => start_step c
  | LLiteral rest t =>
      match rest with
      | [] => None
      | [d] => if (c =? d)%N then Some (LStart, [t]) else None
      | d :: rest' => if (c =? d)%N then Some (LLiteral rest' t, []) else None
      end
  | LString acc =>
      if (c =? 34)%N then Some (LStart, [TString (rev acc)])
      else if (c =? 92)%N then Some (LEscape acc, [])
      else if (c <? 32)%N then None
      else Some (LString (c :: acc), [])
  | LEscape acc =>
      match escape_step acc c with
      | Some st' => Some (st', [])
      | None => None
      end
  | LUnicode acc more v =>
      match hex_value c with
      | None => None
      | Some h =>
          let v' := (v * 16 + h)%N in
          match more with
          | O => Some (LString (v' :: acc), [])
          | S more' => Some (LUnicode acc more' v', [])
          end
      end
  | LNumber p a =>
      match num_step p a c with
      | Some (p', a') => Some (LNumber p' a', [])
      | None =>
          if num_accepting p then
            match start_step c with
            | Some (st', ts) => Some (st', TNumber (num_value a) :: ts)
            | None => None
            end
          else None
      end
  end.

(** End of the text: only a finished token may be pending. *)
Definition lex_end (st : lex_state) : option (list token) :=
  match st with
  | LStart => Some []
  | LNumber p a => if num_accepting p then Some [TNumber (num_value a)] else None
  | LLiteral _ _ | LString _ | LEscape _ | LUnicode _ _ _ => None
  end.

Fixpoint lex_from (st : lex_state) (text : list N) : option (list token) :=
  match text with
  | [] => lex_end st
  | c :: text' =>
      match lex_step st c with
      | None => None
      | Some (st', ts) =>
          match lex_from st' text' with
          | None => None
          | Some ts' => Some (ts ++ ts')
          end
      end
  end.

Definition lex (text : list N) : option (list token) := lex_from LStart text.

(** *** JSON.parse: syntax

    The token list is read left to right with a stack of the containers
    that are still open. *)

Inductive frame : Type :=
  | FArray (items : list value)            (* items read so far, reversed *)
  | FObject (members : list (list N * value)) (key : option (list N)).

Inductive expect : Type :=
  | EValue          (* a value must follow *)
  | EValueOrEnd     (* after an opening bracket *)
  | EKeyOrEnd       (* after an opening brace *)
  | EKey            (* after a comma inside an object *)
  | EColon          (* after a key *)
  | ECommaOrEnd     (* after a value inside a container *)
  | EDone (v : value).

Definition push_value (v : value) (stack : list frame)
  : option (list frame * expect) :=
  match stack with
  | [] => Some ([], EDone v)
  | FArray items :: st => Some (FArray (v :: items) :: st, ECommaOrEnd)
  | FObject ms (Some k) :: st => Some (FObject ((k, v) :: ms) None :: st, ECommaOrEnd)
  | FObject _ None :: _ => None
  end.

Definition close_array (stack : list frame) : option (list frame * expect) :=
  match stack with
  | FArray items :: st => push_value (VArray (rev items)) st
  | _ => None
  end.

Definition close_object (stack : list frame) : option (list frame * expect) :=
  match stack with
  | FObject ms None :: st => push_value (VObject (rev ms)) st
  | _ => None
  end.

Definition set_key (k : list N) (stack : list frame)
  : option (list frame * expect) :=
  match stack with
  | FObject ms None :: st => Some (FObject ms (Some k) :: st, EColon)
  | _ => None
  end.

Definition begin_value (t : token) (stack : list frame)
  : option (list frame * expect) :=
  match t with
  | TLBracket => Some (FArray [] :: stack, EValueOrEnd)
  | TLBrace => Some (FObject [] None :: stack, EKeyOrEnd)
  | TString s => push_value (VString s) stack
  | TNumber x => push_value (VNumber x) stack
  | TTrue => push_value (VBool true) stack
  | TFalse => push_value (VBool false) stack
  | TNull => push_value VNull stack
  | TRBrace | TRBracket | TColon | TComma => None
  end.

Definition parse_step (stack : list frame) (e : expect) (t : token)
  : option (list frame * expect) :=
  match e with
  | EValue => begin_value t stack
  | EValueOrEnd =>
      match t with
      | TRBracket => close_array stack
      | _ => begin_value t stack
      end
  | EKeyOrEnd =>
      match t with
      | TRBrace => close_object stack
      | TString k => set_key k stack
      | _ => None
      end
  | EKey =>
      match t with
      | TString k => set_key k stack
      | _ => None
      end
  | EColon =>
      match t with
      | TColon => Some (stack, EValue)
      | _ => None
      end
  | ECommaOrEnd =>
      match t, stack with
      | TComma, FArray _ :: _ => Some (stack, EValue)
      | TComma, FObject _ None :: _ => Some (stack, EKey)
      | TRBracket, _ => close_array stack
      | TRBrace, _ => close_object stack
      | _, _ => None
      end
  | EDone _ => None
  end.

Fixpoint parse_from (stack : list frame) (e : expect) (ts : list token)
  : option value :=
  match ts with
  | [] =>
      match e, stack with
      | EDone v, [] => Some v
      | _, _ => None
      end
  | t :: ts' =>
      match parse_step stack e t with
      | None => None
      | Some (stack', e') => parse_from stack' e' ts'
      end
  end.

(** [JSON.parse(text)]: [None] stands for the SyntaxError it throws. *)
Definition JSON_parse (text : string) : option value :=
  match lex (code_units text) with
  | None => None
  | Some ts => parse_from [] EValue ts
  end.

(** *** Property access and comparison *)

Fixpoint code_units_eqb (a b : list N) : bool :=
  match a, b with
  | [], [] => true
  | x :: a', y :: b' => (x =? y)%N && code_units_eqb a' b'
  | _, _ => false
  end.

(** The value of member [k] of an object: the last member of that name. *)
Fixpoint member (k : list N) (ms : list (list N * value)) : option value :=
  match ms with
  | [] => None
  | (k', v) :: rest =>
      match member k rest with
      | Some v' => Some v'
      | None => if code_units_eqb k k' then Some v else None
      end
  end.

(** [m?.from]; [None] is undefined. Null short-circuits; a number, a
    string, a boolean and an array have no property of that name. *)
Definition get_from (m : value) : option value :=
  match m with
  | VObject ms => member (code_units "from") ms
  | VNull | VBool _ | VNumber _ | VString _ | VArray _ => None
  end.

(** White space and line terminators that [Number(string)] strips. *)
Definition is_str_white_space (c : N) : bool :=
  ((c =? 9) || (c =? 10) || (c =? 11) || (c =? 12) || (c =? 13) || (c =? 32)
   || (c =? 160) || (c =? 5760) || ((8192 <=? c) && (c <=? 8202))
   || (c =? 8232) || (c =? 8233) || (c =? 8239) || (c =? 8287)
   || (c =? 12288) || (c =? 65279))%N.

Fixpoint drop_white_space (l : list N) : list N :=
  match l with
  | [] => []
  | c :: r => if is_str_white_space c then drop_white_space r else l
  end.

Definition trim (l : list N) : list N :=
  rev (drop_white_space (rev (drop_white_space l))).

(** Reads digits while [digit] accepts them: the value accumulated in
    [base], the number of digits read, and what follows. *)
Fixpoint read_digits (base : Z) (digit : N -> option Z) (l : list N)
  (v n : Z) : Z * Z * list N :=
  match l with
  | [] => (v, n, [])
  | c :: r =>
      match digit c with
      | Some d => read_digits base digit r (v * base + d) (n + 1)
      | None => (v, n, l)
      end
  end.

Definition dec_digit (c : N) : option Z :=
  if is_digit c then Some (digit_value c) else None.

Definition hex_digit (c : N) : option Z :=
  match hex_value c with
  | Some h => Some (Z.of_N h)
  | None => None
  end.

Definition oct_digit (c : N) : option Z :=
  if ((48 <=? c) && (c <=? 55))%N then Some (digit_value c) else None.

Definition bin_digit (c : N) : option Z :=
  if ((48 <=? c) && (c <=? 49))%N then Some (digit_value c) else None.

(** 0x, 0o and 0b literals: one or more digits and nothing else. *)
Definition non_decimal (base : Z) (digit : N -> option Z) (l : list N) : real :=
  match read_digits base digit l 0 0 with
  | (v, n, []) => if 0 <? n then RDec v 0 else RNaN
  | (_, _, _ :: _) => RNaN
  end.

(** The exponent part, if any, of a decimal literal with digits [v] of
    which [scale] are fraction digits. *)
Definition with_exponent (negative : bool) (v scale : Z) (l : list N) : real :=
  let m := if negative then - v else v in
  match l with
  | [] => RDec m (- scale)
  | c :: r =>
      if ((c =? 101) || (c =? 69))%N then
        let '(eneg, r') :=
          match r with
          | 43%N :: r' => (false, r')
          | 45%N :: r' => (true, r')
          | _ => (false, r)
          end in
        match read_digits 10 dec_digit r' 0 0 with
        | (x, n, []) =>
            if 0 <? n then RDec m ((if eneg then - x else x) - scale) else RNaN
        | (_, _, _ :: _) => RNaN
        end
      else RNaN
  end.

(** A decimal literal without its sign. *)
Definition unsigned_decimal (negative : bool) (l : list N) : real :=
  if code_units_eqb l (code_units "Infinity") then RInfinity negative
  else
    let '(v1, n1, r1) := read_digits 10 dec_digit l 0 0 in
    match r1 with
    | 46%N :: r1' =>
        let '(v2, n2, r2) := read_digits 10 dec_digit r1' v1 0 in
        if 0 <? n1 + n2 then with_exponent negative v2 n2 r2 else RNaN
    | _ => if 0 <? n1 then with_exponent negative v1 0 r1 else RNaN
    end.

(** [Number(s)] for a string [s] (StringToNumber). *)
Definition StringToNumber (s : list N) : real :=
  match trim s with
  | [] => RDec 0 0
  | 48%N :: 120%N :: r | 48%N :: 88%N :: r => non_decimal 16 hex_digit r
  | 48%N :: 111%N :: r | 48%N :: 79%N :: r => non_decimal 8 oct_digit r
  | 48%N :: 98%N :: r | 48%N :: 66%N :: r => non_decimal 2 bin_digit r
  | 43%N :: r => unsigned_decimal false r
  | 45%N :: r => unsigned_decimal true r
  | l => unsigned_decimal false l
  end.

(** Whether an object has an own member of that name. *)
Definition has_member (k : list N) (ms : list (list N * value)) : bool :=
  existsb (fun kv => code_units_eqb k (fst kv)) ms.

(** Whether turning a parsed value into a primitive throws a TypeError.
    No member of an object that [JSON.parse] built is callable. An own
    member named toString hides the inherited method, and the inherited
    valueOf returns the object itself: such an object has no method that
    yields a primitive. Without that member the inherited toString
    answers. An array is joined item by item, and every item other than
    null is turned into a string on the way, nested arrays included. *)
Fixpoint ToPrimitive_throws (v : value) : bool :=
  match v with
  | VObject ms => has_member (code_units "toString") ms
  | VArray items => existsb ToPrimitive_throws items
  | VNull | VBool _ | VNumber _ | VString _ => false
  end.

(** The number of a parsed value whose primitive form exists. An array is
    first turned into the string that joins its items with commas (null
    as the empty string, a number as a literal that reads back as the same
    number); with two or more items that string holds a comma and is no
    number. An object becomes a string that is no number. *)
Fixpoint primitive_number (v : value) : real :=
  match v with
  | VNull => RDec 0 0
  | VBool b => if b then RDec 1 0 else RDec 0 0
  | VNumber x => x
  | VString s => StringToNumber s
  | VArray [] => RDec 0 0
  | VArray [x] =>
      match x with
      | VNull => RDec 0 0
      | VBool _ => RNaN
      | VNumber y => y
      | VString s => StringToNumber s
      | VArray _ => primitive_number x
      | VObject _ => RNaN
      end
  | VArray (_ :: _ :: _) => RNaN
  | VObject _ => RNaN
  end.

(** [Number(v)] for a parsed value, as the comparison applies it: the
    TypeError of a value without primitive form, or its number. *)
Definition ToNumber (v : value) : result real :=
  if ToPrimitive_throws v then Err TypeError else Ok (primitive_number v).

(** [m?.from < 2]: undefined compares as NaN; the comparison throws when
    the member has no primitive form. *)
Definition from_lt_two (m : value) : result bool :=
  match get_from m with
  | None => Ok false
  | Some v =>
      x <- ToNumber v ;;
      Ok (lt_two x)
  end.

End JS.

(** ** Data model *)

(** A task on the wire ([zTask], lines 17-26). An optional field that is
    absent from the payload is [None]. *)
Module zTask.
Record t : Type := mk {
  id : string;
  name : string;
  icon : string;
  is_done : bool;
  is_urgent : option bool;
  comment : option string;
  created_at : Z;
  updated_at : Z
}.
End zTask.

(** A row of the [task] table. [isUrgent] and [comment] are [None] when
    the column holds NULL. *)
Module TaskRow.
Record t : Type := mk {
  id : string;
  name : string;
  icon : string;
  isDone : bool;
  isUrgent : option bool;
  comment : option string;
  createdAt : Z;
  updatedAt : Z;
  serverCreatedAt : Z;
  serverUpdatedAt : Z
}.
End TaskRow.

(** An element of [createdTasks] (lines 90-101): the data of one insert.
    [isUrgent] and [comment] are undefined ([None]) when the payload omits
    them. *)
Module TaskCreate.
Record t : Type := mk {
  id : string;
  name : string;
  icon : string;
  isDone : bool;
  isUrgent : option bool;
  comment : option string;
  createdAt : Z;
  updatedAt : Z;
  serverCreatedAt : Z;
  serverUpdatedAt : Z
}.
End TaskCreate.

(** An element of [updatedTasks] (lines 76-88 and 115-127): the key
    [isUrgent], respectively [comment], is in the object only when the
    payload has the field. *)
Module TaskPatch.
Record t : Type := mk {
  id : string;
  name : string;
  icon : string;
  isDone : bool;
  isUrgent : option bool;
  comment : option string;
  updatedAt : Z
}.
End TaskPatch.

(** [zDatabaseChanges] (lines 28-34), the [tasks] member. *)
Record TaskChanges : Type := mkTaskChanges {
  created : option (list zTask.t);
  updated : option (list zTask.t);
  deleted : option (list string)
}.

Record zDatabaseChanges : Type := mkChanges {
  tasks : TaskChanges
}.

Record PushInput : Type := mkPushInput {
  push_changes : zDatabaseChanges;
  push_lastPulledAt : option JS.number
}.

Record PullInput : Type := mkPullInput {
  lastPulledAt : option JS.number;
  schemaVersion : JS.number;
  migration : option string
}.

Record PullOutput : Type := mkPullOutput {
  changes : zDatabaseChanges;
  timestamp : Z
}.

(** The [task] table, in table order. *)
Definition store : Type := list TaskRow.t.

Definition ids (db : store) : list string := map TaskRow.id db.

(** The primary key constraint. *)
Definition wf_store (db : store) : Prop := NoDup (ids db).

(** ** The record store ([ctx.db.task], [tx.task]) *)

Definition has_id (i : string) (r : TaskRow.t) : bool :=
  String.eqb (TaskRow.id r) i.

(** [findUnique({ where: { id } })] *)
Definition findUnique (i : string) (db : store) : option TaskRow.t :=
  find (has_id i) db.

(** [findMany({ where })] *)
Definition findMany (cond : TaskRow.t -> bool) (db : store) : list TaskRow.t :=
  filter cond db.

(** ** pullChanges (lines 173-239) *)

(** Lines 174-177. *)
Definition safeLastPulledAt (input_lastPulledAt : option JS.number) : Z :=
  if JS.truthy_nullable_number input_lastPulledAt then
    match input_lastPulledAt with
    | Some (JS.Num z) => z
    | Some JS.NaN | None => 1   (* not truthy: unreachable *)
    end
  else 1.

(** The condition of lines 180-184. *)
Definition created_since (w : Z) (r : TaskRow.t) : bool :=
  w <? TaskRow.serverCreatedAt r.

(** The condition of lines 188-201. *)
Definition updated_since (w : Z) (r : TaskRow.t) : bool :=
  (w <? TaskRow.serverUpdatedAt r) && (TaskRow.serverCreatedAt r <=? w).

(** Lines 204-209: the rows reported as updated. *)
Definition migrate_updated (input : PullInput) (updatedTasks : list TaskRow.t)
  (db : store) : result (list TaskRow.t) :=
  if JS.ge_two (schemaVersion input) && JS.truthy_nullable_string (migration input)
  then
    match migration input with
    | Some text =>
        match JS.JSON_parse text with
        | None => Err SyntaxError
        | Some m =>
            below <- JS.from_lt_two m ;;
            if below then Ok (findMany (fun _ => true) db)
            else Ok updatedTasks
        end
    | None => Ok updatedTasks
    end
  else Ok updatedTasks.

(** Lines 215-224 and 225-234. *)
Definition to_wire (task : TaskRow.t) : zTask.t :=
  zTask.mk (TaskRow.id task) (TaskRow.name task) (TaskRow.icon task)
    (TaskRow.isDone task) (TaskRow.isUrgent task) (TaskRow.comment task)
    (TaskRow.createdAt task) (TaskRow.updatedAt task).

(** The handler, [now] being the value [Date.now()] returns at line 212. *)
Definition pullChanges (now : Z) (input : PullInput) (db : store)
  : result PullOutput :=
  let w := safeLastPulledAt (lastPulledAt input) in
  let createdTasks := findMany (created_since w) db in
  let updatedTasks := findMany (updated_since w) db in
  updatedTasks' <- migrate_updated input updatedTasks db ;;
  Ok (mkPullOutput
        (mkChanges
           (mkTaskChanges (Some (map to_wire createdTasks))
                          (Some (map to_wire updatedTasks'))
                          (Some [])))
        now).

(** ** Notions used in the statements *)

(** An optional array of the payload, read as empty when absent. *)
Definition or_empty {A : Type} (l : option (list A)) : list A :=
  match l with
  | Some x => x
  | None => []
  end.

(** The records a pull response reports as created, and as updated. *)
Definition created_of (out : PullOutput) : list zTask.t :=
  or_empty (created (tasks (changes out))).

Definition updated_of (out : PullOutput) : list zTask.t :=
  or_empty (updated (tasks (changes out))).

(** The condition of lines 204-206 under which line 207 runs: schema
    version at least 2, a non-empty migration string that parses, and a
    [from] member that the comparison finds below 2. *)
Definition override_active (input : PullInput) : bool :=
  JS.ge_two (schemaVersion input)
  && JS.truthy_nullable_string (migration input)
  && match migration input with
     | Some text =>
         match JS.JSON_parse text with
         | Some m =>
             match JS.from_lt_two m with
             | Ok below => below
             | Err _ => false
             end
         | None => false
         end
     | None => false
     end.

(** A push of creates only. *)
Definition push_of_created (l : list zTask.t) (upd : option (list zTask.t))
  (del : option (list string)) (lp : option JS.number) : PushInput :=
  mkPushInput (mkChanges (mkTaskChanges (Some l) upd del)) lp.

(** A push of updates only. *)
Definition push_of_updated (l : list zTask.t) : PushInput :=
  mkPushInput (mkChanges (mkTaskChanges None (Some l) None)) None.

(** ** Sample data *)

Definition double_quote : string := String (ascii_of_nat 34) EmptyString.

Definition quoted (s : string) : string :=
  String.append double_quote (String.append s double_quote).

(** The text [{"from":1}]. *)
Definition migration_from_1 : string :=
  String.append "{"%string (String.append (quoted "from"%string) ":1}"%string).

(** The text [{from:1}], which is not JSON. *)
Definition migration_unquoted : string := "{from:1}"%string.

Definition sample_row : TaskRow.t :=
  TaskRow.mk "t1"%string "Buy milk"%string "cart"%string false
    (Some false) (Some "2 litres"%string)
    1700000000000 1700000000000 1700000000500 1700000000500.

Definition sample_task : zTask.t :=
  zTask.mk "t1"%string "Buy oat milk"%string "leaf"%string true None None
    1700000000000 1700000009000.

Definition sample_task_2 : zTask.t :=
  zTask.mk "t2"%string "Call Ana"%string "phone"%string false (Some true) None
    1700000003000 1700000003000.

Definition sample_row_0 : TaskRow.t :=
  TaskRow.mk "t0"%string "Water plants"%string "drop"%string true
    None None
    1699999990000 1700000000700 1699999990100 1700000000800.

(** A table of two rows: t0 created before the watermark 1700000000000
    and updated after it, t1 created after it. *)
Definition sample_db : store := [sample_row_0; sample_row].

Definition plain_pull : PullInput :=
  mkPullInput (Some (JS.Num 1700000000000)) (JS.Num 1) None.

(** A push that resends t1, which is stored, and creates t2. *)
Definition sample_push : PushInput :=
  push_of_created [sample_task; sample_task_2] (Some []) (Some []) None.

(** A second update of t1, which sets a comment. *)
Definition sample_task_1b : zTask.t :=
  zTask.mk "t1"%string "Buy oat milk"%string "leaf"%string true None
    (Some "unsweetened"%string) 1700000000000 1700000009500.

(** An update of t0. *)
Definition sample_task_0 : zTask.t :=
  zTask.mk "t0"%string "Water the plants"%string "drop"%string false (Some true) None
    1699999990000 1700000009900.

(** A push that only lists t0 as deleted. *)
Definition sample_delete_push : PushInput :=
  mkPushInput (mkChanges (mkTaskChanges None None (Some ["t0"%string]))) None.

(** The text [{"from":{"toString":0}}]: JSON whose [from] member has no
    primitive form. *)
Definition migration_from_object : string :=
  String.append "{"%string
    (String.append (quoted "from"%string)
       (String.append ":{"%string
          (String.append (quoted "toString"%string) ":0}}"%string))).

Definition unprintable_migration_pull : PullInput :=
  mkPullInput None (JS.Num 2) (Some migration_from_object).

Definition resync_pull : PullInput :=
  mkPullInput (Some (JS.Num 1700000000000)) (JS.Num 2) (Some migration_from_1).

Definition empty_migration_pull : PullInput :=
  mkPullInput None (JS.Num 2) (Some EmptyString).

Definition malformed_migration_pull : PullInput :=
  mkPullInput None (JS.Num 2) (Some migration_unquoted).

(** ** Integer migration descriptors *)

(** The character of the decimal digit [d]. *)
Definition digit_char (d : N) : ascii := ascii_of_N (48 + d).

(** The text of a sequence of digits, most significant first. *)
Fixpoint literal (ds : list N) : string :=
  match ds with
  | [] => EmptyString
  | d :: r => String (digit_char d) (literal r)
  end.

(** The integer a sequence of digits denotes. *)
Definition literal_value (ds : list N) : Z :=
  fold_left (fun v d => v * 10 + Z.of_N d) ds 0.

Definition signed_value (negative : bool) (ds : list N) : Z :=
  if negative then - literal_value ds else literal_value ds.

(** The digits of an integer literal of JSON: decimal digits, a single 0
    or a sequence that does not start with 0. *)
Definition canonical (ds : list N) : Prop :=
  Forall (fun d => (d < 10)%N) ds
  /\ (ds = [0%N] \/ exists d r, ds = d :: r /\ d <> 0%N).

(** The text [{"from":n}] for the integer literal [n] with digits [ds],
    preceded by a minus sign when [negative]. *)
Definition from_descriptor (negative : bool) (ds : list N) : string :=
  String.append "{"%string
    (String.append (quoted "from"%string)
       (String.append ":"%string
          (String.append (if negative then "-"%string else EmptyString)
             (String.append (literal ds) "}"%string)))).

(** The lexer run over a piece of text that is not the end of the input:
    the state it reaches and the tokens it emits. *)
Fixpoint lex_run (st : JS.lex_state) (text : list N)
  : option (JS.lex_state * list JS.token) :=
  match text with
  | [] => Some (st, [])
  | c :: text' =>
      match JS.lex_step st c with
      | None => None
      | Some (st', ts) =>
          match lex_run st' text' with
          | None => None
          | Some (st'', ts') => Some (st'', ts ++ ts')
          end
      end
  end.

(** ** Writes of the record store, and pushChanges *)

Section Schema.

(** The table definition of [task] is not part of the sources: what an
    insert stores in [isUrgent] and [comment] when the payload omits the
    field (a default value, or NULL) is a parameter of the model. *)
Variable default_isUrgent : option bool.
Variable default_comment : option string.

Definition or_default {A : Type} (v : option A) (d : option A) : option A :=
  match v with
  | Some x => Some x
  | None => d
  end.

Definition row_of_create (c : TaskCreate.t) : TaskRow.t :=
  TaskRow.mk (TaskCreate.id c) (TaskCreate.name c) (TaskCreate.icon c)
    (TaskCreate.isDone c)
    (or_default (TaskCreate.isUrgent c) default_isUrgent)
    (or_default (TaskCreate.comment c) default_comment)
    (TaskCreate.createdAt c) (TaskCreate.updatedAt c)
    (TaskCreate.serverCreatedAt c) (TaskCreate.serverUpdatedAt c).

(** One insert: the primary key rejects an id that is already stored. *)
Definition insert_row (db : store) (c : TaskCreate.t) : result store :=
  match findUnique (TaskCreate.id c) db with
  | Some _ => Err (UniqueConstraintFailed (TaskCreate.id c))
  | None => Ok (db ++ [row_of_create c])
  end.

(** [createMany({ data })]: all rows or, on a duplicate key, none. *)
Fixpoint createMany (data : list TaskCreate.t) (db : store) : result store :=
  match data with
  | [] => Ok db
  | c :: data' =>
      db' <- insert_row db c ;;
      createMany data' db'
  end.

(** The row after [update({ data: { ...task, serverUpdatedAt: now } })]:
    the keys of [data] overwrite, the other columns stay. *)
Definition apply_patch (now : Z) (p : TaskPatch.t) (r : TaskRow.t) : TaskRow.t :=
  TaskRow.mk (TaskPatch.id p) (TaskPatch.name p) (TaskPatch.icon p)
    (TaskPatch.isDone p)
    (match TaskPatch.isUrgent p with
     | Some b => Some b
     | None => TaskRow.isUrgent r
     end)
    (match TaskPatch.comment p with
     | Some s => Some s
     | None => TaskRow.comment r
     end)
    (TaskRow.createdAt r) (TaskPatch.updatedAt p)
    (TaskRow.serverCreatedAt r) now.

(** What [update] does to one row of the table. *)
Definition patch_row (now : Z) (p : TaskPatch.t) (r : TaskRow.t) : TaskRow.t :=
  if has_id (TaskPatch.id p) r then apply_patch now p r else r.

(** [update({ data, where: { id } })]: fails when no row has the id. *)
Definition update (now : Z) (p : TaskPatch.t) (db : store) : result store :=
  match findUnique (TaskPatch.id p) db with
  | None => Err (RecordNotFound (TaskPatch.id p))
  | Some _ => Ok (map (patch_row now p) db)
  end.

(** *** pushChanges (lines 53-149) *)

(** Lines 76-88: a create whose id is stored becomes an update. *)
Definition patch_of_created (createdTask : zTask.t) : TaskPatch.t :=
  TaskPatch.mk (zTask.id createdTask) (zTask.name createdTask)
    (zTask.icon createdTask) (zTask.is_done createdTask)
    (zTask.is_urgent createdTask) (zTask.comment createdTask)
    (zTask.updated_at createdTask).

(** Lines 90-101. *)
Definition create_of_created (now : Z) (createdTask : zTask.t) : TaskCreate.t :=
  TaskCreate.mk (zTask.id createdTask) (zTask.name createdTask)
    (zTask.icon createdTask) (zTask.is_done createdTask)
    (zTask.is_urgent createdTask) (zTask.comment createdTask)
    (zTask.created_at createdTask) (zTask.updated_at createdTask)
    now now.

(** Lines 115-127. *)
Definition patch_of_updated (updatedTask : zTask.t) : TaskPatch.t :=
  TaskPatch.mk (zTask.id updatedTask) (zTask.name updatedTask)
    (zTask.icon updatedTask) (zTask.is_done updatedTask)
    (zTask.is_urgent updatedTask) (zTask.comment updatedTask)
    (zTask.updated_at updatedTask).

(** The two arrays the transaction fills. *)
Definition staged : Type := (list TaskCreate.t * list TaskPatch.t)%type.

(** Body of the loop of lines 65-103. *)
Definition stage_created (now : Z) (db : store) (acc : staged)
  (createdTask : zTask.t) : staged :=
  let '(createdTasks, updatedTasks) := acc in
  match findUnique (zTask.id createdTask) db with
  | Some _ => (createdTasks, updatedTasks ++ [patch_of_created createdTask])
  | None => (createdTasks ++ [create_of_created now createdTask], updatedTasks)
  end.

(** Lines 61-104. *)
Definition stage_all_created (now : Z) (db : store)
  (input_created : option (list zTask.t)) : staged :=
  match input_created with
  | Some l =>
      if (0 <? List.length l)%nat then fold_left (stage_created now db) l ([], [])
      else ([], [])
  | None => ([], [])
  end.

(** Lines 110-129. *)
Definition stage_all_updated (updatedTasks : list TaskPatch.t)
  (input_updated : option (list zTask.t)) : list TaskPatch.t :=
  match input_updated with
  | Some l =>
      if (0 <? List.length l)%nat
      then fold_left (fun acc u => acc ++ [patch_of_updated u]) l updatedTasks
      else updatedTasks
  | None => updatedTasks
  end.

(** Lines 131-142: the update queries, issued in the order of the array;
    one failure fails them all. *)
Fixpoint update_all (now : Z) (updatedTasks : list TaskPatch.t) (db : store)
  : result store :=
  match updatedTasks with
  | [] => Ok db
  | task :: rest =>
      db' <- update now task db ;;
      update_all now rest db'
  end.

(** The callback of [$transaction] (lines 55-143), [now] being the value
    [Date.now()] returns at line 59. *)
Definition transaction (now : Z) (input : PushInput) (db : store) : result store :=
  let '(createdTasks, updatedTasks) :=
    stage_all_created now db (created (tasks (push_changes input))) in
  db1 <- createMany createdTasks db ;;
  let updatedTasks' :=
    stage_all_updated updatedTasks (updated (tasks (push_changes input))) in
  update_all now updatedTasks' db1.

(** The handler: a failed transaction leaves the store as it was and is
    rethrown inside an ExtendedTRPCError. *)
Definition pushChanges (now : Z) (input : PushInput) (db : store)
  : result unit * store :=
  match transaction now input db with
  | Ok db' => (Ok tt, db')
  | Err e => (Err (ExtendedTRPCError e), db)
  end.

(** The update patches the transaction applies, in order. *)
Definition patches (now : Z) (input : PushInput) (db : store) : list TaskPatch.t :=
  stage_all_updated
    (snd (stage_all_created now db (created (tasks (push_changes input)))))
    (updated (tasks (push_changes input))).

(** The inserts the transaction attempts, in order. *)
Definition inserts (now : Z) (input : PushInput) (db : store) : list TaskCreate.t :=
  fst (stage_all_created now db (created (tasks (push_changes input)))).

(** Number of rows of the table with id [i]. *)
Definition count_id (i : string) (db : store) : nat :=
  count_occ string_dec (ids db) i.

(** Whether the id of an inbound record is in the table. *)
Definition is_stored (db : store) (t : zTask.t) : bool :=
  match findUnique (zTask.id t) db with
  | Some _ => true
  | None => false
  end.

(** The merge rule of section 4.1, step 3: [r'] is what row [r] becomes
    under the inbound record [t]. Required fields are those of [t]; an
    optional field is that of [t] when [t] has it and that of [r]
    otherwise. *)
Definition merged (t : zTask.t) (r r' : TaskRow.t) : Prop :=
  TaskRow.name r' = zTask.name t
  /\ TaskRow.icon r' = zTask.icon t
  /\ TaskRow.isDone r' = zTask.is_done t
  /\ TaskRow.isUrgent r' =
       match zTask.is_urgent t with
       | Some b => Some b
       | None => TaskRow.isUrgent r
       end
  /\ TaskRow.comment r' =
       match zTask.comment t with
       | Some s => Some s
       | None => TaskRow.comment r
       end.

(** An inbound record as a pull reports it once stored: an optional field
    the payload omitted shows what the insert stored for it. *)
Definition as_stored (t : zTask.t) : zTask.t :=
  zTask.mk (zTask.id t) (zTask.name t) (zTask.icon t) (zTask.is_done t)
    (or_default (zTask.is_urgent t) default_isUrgent)
    (or_default (zTask.comment t) default_comment)
    (zTask.created_at t) (zTask.updated_at t).

(** ** Notions used in the further properties *)

(** The row after the update queries of [ps], in order. *)
Definition apply_seq (now : Z) (ps : list TaskPatch.t) (r : TaskRow.t) : TaskRow.t :=
  fold_left (fun r' p => patch_row now p r') ps r.

(** The single patch that does what [p] followed by [q] does: the keys of
    [q] overwrite those of [p]. *)
Definition compose (p q : TaskPatch.t) : TaskPatch.t :=
  TaskPatch.mk (TaskPatch.id q) (TaskPatch.name q) (TaskPatch.icon q)
    (TaskPatch.isDone q)
    (match TaskPatch.isUrgent q with
     | Some b => Some b
     | None => TaskPatch.isUrgent p
     end)
    (match TaskPatch.comment q with
     | Some s => Some s
     | None => TaskPatch.comment p
     end)
    (TaskPatch.updatedAt q).

(** Row [r] with its update stamp replaced. *)
Definition touch (now : Z) (r : TaskRow.t) : TaskRow.t :=
  TaskRow.mk (TaskRow.id r) (TaskRow.name r) (TaskRow.icon r) (TaskRow.isDone r)
    (TaskRow.isUrgent r) (TaskRow.comment r) (TaskRow.createdAt r)
    (TaskRow.updatedAt r) (TaskRow.serverCreatedAt r) now.

Definition mem (i : string) (l : list string) : bool :=
  existsb (String.eqb i) l.

(** The ids a push payload names in its created and updated arrays. *)
Definition mentions (input : PushInput) : list string :=
  map zTask.id (or_empty (created (tasks (push_changes input)))
                ++ or_empty (updated (tasks (push_changes input)))).

(** The ids of the created records whose id is not in the table. *)
Definition fresh_ids (input : PushInput) (db : store) : list string :=
  map zTask.id
    (filter (fun t => negb (is_stored db t))
       (or_empty (created (tasks (push_changes input))))).

(** Every row has its creation stamp at most its update stamp, and that
    one at most [w]. *)
Definition stamps_le (w : Z) (db : store) : Prop :=
  forall r, In r db ->
    TaskRow.serverCreatedAt r <= TaskRow.serverUpdatedAt r
    /\ TaskRow.serverUpdatedAt r <= w.

(** The answer of a pull that has nothing to report. *)
Definition empty_response (now : Z) : PullOutput :=
  mkPullOutput (mkChanges (mkTaskChanges (Some []) (Some []) (Some []))) now.

(** The patch that the patches of [ps] for id [i] amount to when they are
    applied, in order, after the patch [acc]. *)
Definition summary_step (i : string) (acc : option TaskPatch.t) (q : TaskPatch.t)
  : option TaskPatch.t :=
  if String.eqb (TaskPatch.id q) i then
    Some (match acc with
          | Some p => compose p q
          | None => q
          end)
  else acc.

Definition summary (i : string) (acc : option TaskPatch.t) (ps : list TaskPatch.t)
  : option TaskPatch.t :=
  fold_left (summary_step i) ps acc.

Definition opt_apply (now : Z) (o : option TaskPatch.t) (r : TaskRow.t) : TaskRow.t :=
  match o with
  | Some p => apply_patch now p r
  | None => r
  end.

(** The update patches of a push whose created records are all stored. *)
Definition retry_patches (input : PushInput) : list TaskPatch.t :=
  map patch_of_created (or_empty (created (tasks (push_changes input))))
  ++ map patch_of_updated (or_empty (updated (tasks (push_changes input)))).

(** * Properties *)

(** ** Reading the store *)

Lemma filter_none {A : Type} (f : A -> bool) (l : list A) :
  (forall x, In x l -> f x = false) -> filter f l = [].
Proof.
  induction l as [|x l IH]; simpl; intros H; [reflexivity|].
  rewrite (H x) by now left. apply IH. intros y Hy. apply H. now right.
Qed.

Lemma filter_all {A : Type} (f : A -> bool) (l : list A) :
  (forall x, In x l -> f x = true) -> filter f l = l.
Proof.
  induction l as [|x l IH]; simpl; intros H; [reflexivity|].
  rewrite (H x) by now left. f_equal. apply IH. intros y Hy. apply H. now right.
Qed.

Lemma has_id_true i r : has_id i r = true <-> TaskRow.id r = i.
Proof. unfold has_id. apply String.eqb_eq. Qed.

Lemma has_id_false i r : has_id i r = false <-> TaskRow.id r <> i.
Proof. unfold has_id. apply String.eqb_neq. Qed.

Lemma findUnique_Some i db r :
  findUnique i db = Some r -> In r db /\ TaskRow.id r = i.
Proof.
  unfold findUnique. intros H. apply find_some in H.
  destruct H as [Hin Hid]. split; [exact Hin | now apply has_id_true].
Qed.

Lemma findUnique_None i db : findUnique i db = None <-> ~ In i (ids db).
Proof.
  unfold findUnique, ids. induction db as [|r db IH]; simpl.
  - split; auto.
  - destruct (has_id i r) eqn:E.
    + apply has_id_true in E. split; [discriminate | intros H; exfalso; auto].
    + apply has_id_false in E. rewrite IH. split.
      * intros H [H1 | H1]; auto.
      * intros H H1. apply H. now right.
Qed.

Lemma findUnique_In i db : In i (ids db) -> exists r, findUnique i db = Some r.
Proof.
  intros H. destruct (findUnique i db) as [r|] eqn:E; [now exists r|].
  apply findUnique_None in E. contradiction.
Qed.

Lemma findUnique_app i a b :
  findUnique i (a ++ b) =
  match findUnique i a with
  | Some r => Some r
  | None => findUnique i b
  end.
Proof.
  unfold findUnique. induction a as [|r a IH]; simpl; [reflexivity|].
  destruct (has_id i r); [reflexivity | exact IH].
Qed.

Lemma wf_store_inj db r r' :
  wf_store db -> In r db -> In r' db -> TaskRow.id r = TaskRow.id r' -> r = r'.
Proof.
  unfold wf_store, ids. induction db as [|x db IH]; simpl; [tauto|].
  intros Hnd [H1 | H1] [H2 | H2] Hid; inversion Hnd as [|? ? Hx Hnd']; subst.
  - reflexivity.
  - exfalso. apply Hx. rewrite Hid. now apply in_map.
  - exfalso. apply Hx. rewrite <- Hid. now apply in_map.
  - now apply IH.
Qed.

Lemma wf_store_count i db : wf_store db -> In i (ids db) -> count_id i db = 1%nat.
Proof.
  unfold wf_store, count_id. intros Hnd Hin.
  pose proof (proj1 (NoDup_count_occ string_dec (ids db)) Hnd i) as Hle.
  pose proof (proj1 (count_occ_In string_dec (ids db) i) Hin). lia.
Qed.

(** ** Writing the store *)

Lemma row_of_create_id c : TaskRow.id (row_of_create c) = TaskCreate.id c.
Proof. reflexivity. Qed.

Lemma ids_app a b : ids (a ++ b) = ids a ++ ids b.
Proof. unfold ids. apply map_app. Qed.

Lemma ids_created data :
  ids (map row_of_create data) = map TaskCreate.id data.
Proof. unfold ids. rewrite map_map. reflexivity. Qed.

Lemma createMany_ok data : forall db db',
  createMany data db = Ok db' -> db' = db ++ map row_of_create data.
Proof.
  induction data as [|c data IH]; simpl; intros db db' H.
  - inversion H. now rewrite app_nil_r.
  - unfold insert_row in H. destruct (findUnique (TaskCreate.id c) db); simpl in H.
    + discriminate.
    + apply IH in H. subst db'. now rewrite <- app_assoc.
Qed.

Lemma createMany_wf data : forall db db',
  wf_store db -> createMany data db = Ok db' -> wf_store db'.
Proof.
  induction data as [|c data IH]; simpl; intros db db' Hwf H.
  - now inversion H; subst.
  - unfold insert_row in H.
    destruct (findUnique (TaskCreate.id c) db) eqn:E; simpl in H; [discriminate|].
    apply IH in H; [exact H|].
    apply findUnique_None in E. unfold wf_store in *. rewrite ids_app. simpl.
    apply NoDup_app.
    + exact Hwf.
    + constructor; [simpl; tauto | constructor].
    + intros x Hx [Hy | []]. subst x. contradiction.
Qed.

Lemma createMany_total data : forall db,
  NoDup (map TaskCreate.id data) ->
  (forall c, In c data -> ~ In (TaskCreate.id c) (ids db)) ->
  createMany data db = Ok (db ++ map row_of_create data).
Proof.
  induction data as [|c data IH]; simpl; intros db Hnd Hfresh.
  - now rewrite app_nil_r.
  - inversion Hnd as [|? ? Hc Hnd']; subst.
    unfold insert_row.
    destruct (findUnique (TaskCreate.id c) db) eqn:E.
    + apply findUnique_Some in E. destruct E as [Hin Hid].
      exfalso. apply (Hfresh c); [now left|]. rewrite <- Hid. now apply in_map.
    + simpl. rewrite IH; [now rewrite <- app_assoc | exact Hnd' |].
      intros c' Hc' Hin. rewrite ids_app in Hin. apply in_app_or in Hin.
      destruct Hin as [Hin | Hin].
      * apply (Hfresh c'); [now right | exact Hin].
      * simpl in Hin. destruct Hin as [Hin | []].
        apply Hc. rewrite Hin. now apply in_map.
Qed.

Lemma createMany_err data : forall db e,
  createMany data db = Err e ->
  exists c, In c data /\ e = UniqueConstraintFailed (TaskCreate.id c).
Proof.
  induction data as [|c data IH]; simpl; intros db e H; [discriminate|].
  unfold insert_row in H.
  destruct (findUnique (TaskCreate.id c) db); simpl in H.
  - inversion H. exists c. split; [now left | reflexivity].
  - apply IH in H. destruct H as [c' [Hin He]]. exists c'. split; [now right | exact He].
Qed.

Lemma patch_row_id now p r : TaskRow.id (patch_row now p r) = TaskRow.id r.
Proof.
  unfold patch_row. destruct (has_id (TaskPatch.id p) r) eqn:E; [|reflexivity].
  apply has_id_true in E. simpl. now symmetry.
Qed.

Lemma patch_row_serverCreatedAt now p r :
  TaskRow.serverCreatedAt (patch_row now p r) = TaskRow.serverCreatedAt r.
Proof. unfold patch_row. now destruct (has_id (TaskPatch.id p) r). Qed.

Lemma ids_patch_row now p db : ids (map (patch_row now p) db) = ids db.
Proof.
  unfold ids. rewrite map_map. apply map_ext. intros r. apply patch_row_id.
Qed.

Lemma findUnique_patch_row now p i db :
  findUnique i (map (patch_row now p) db) =
  option_map (patch_row now p) (findUnique i db).
Proof.
  unfold findUnique. induction db as [|r db IH]; simpl; [reflexivity|].
  unfold has_id at 1. rewrite patch_row_id. fold (has_id i r).
  destruct (has_id i r); [reflexivity | exact IH].
Qed.

Lemma update_ok now p db db' :
  update now p db = Ok db' ->
  In (TaskPatch.id p) (ids db) /\ db' = map (patch_row now p) db.
Proof.
  unfold update. destruct (findUnique (TaskPatch.id p) db) eqn:E; intros H; inversion H.
  split; [|reflexivity].
  apply findUnique_Some in E. destruct E as [Hin Hid]. rewrite <- Hid. now apply in_map.
Qed.

Lemma update_total now p db :
  In (TaskPatch.id p) (ids db) -> update now p db = Ok (map (patch_row now p) db).
Proof.
  intros H. unfold update. apply findUnique_In in H. destruct H as [r Hr]. now rewrite Hr.
Qed.

Lemma update_err now p db e :
  update now p db = Err e -> e = RecordNotFound (TaskPatch.id p).
Proof.
  unfold update. destruct (findUnique (TaskPatch.id p) db); intros H; now inversion H.
Qed.

Lemma update_all_ids now ps : forall db db',
  update_all now ps db = Ok db' -> ids db' = ids db.
Proof.
  induction ps as [|p ps IH]; simpl; intros db db' H.
  - now inversion H.
  - destruct (update now p db) as [db1|e] eqn:E; simpl in H; [|discriminate].
    apply update_ok in E. destruct E as [_ E]. apply IH in H. rewrite H, E.
    apply ids_patch_row.
Qed.

Lemma update_all_total now ps : forall db,
  (forall p, In p ps -> In (TaskPatch.id p) (ids db)) ->
  exists db', update_all now ps db = Ok db'.
Proof.
  induction ps as [|p ps IH]; simpl; intros db H.
  - now exists db.
  - rewrite update_total by (apply H; now left). simpl. apply IH.
    intros q Hq. rewrite ids_patch_row. apply H. now right.
Qed.

Lemma update_all_err now ps : forall db e,
  update_all now ps db = Err e ->
  exists p, In p ps /\ e = RecordNotFound (TaskPatch.id p).
Proof.
  induction ps as [|p ps IH]; simpl; intros db e H; [discriminate|].
  destruct (update now p db) as [db1|e1] eqn:E; simpl in H.
  - apply IH in H. destruct H as [q [Hq He]]. exists q. split; [now right | exact He].
  - inversion H; subst. apply update_err in E. exists p. split; [now left | exact E].
Qed.

(** ** Staging *)

Lemma fold_stage_created now db l : forall cs us,
  fold_left (stage_created now db) l (cs, us) =
  (cs ++ map (create_of_created now) (filter (fun t => negb (is_stored db t)) l),
   us ++ map patch_of_created (filter (is_stored db) l)).
Proof.
  induction l as [|t l IH]; simpl; intros cs us.
  - now rewrite !app_nil_r.
  - destruct (is_stored db t) eqn:E; unfold is_stored in E;
      destruct (findUnique (zTask.id t) db); try discriminate; simpl;
      rewrite IH, <- app_assoc; reflexivity.
Qed.

Lemma stage_all_created_eq now db oc :
  stage_all_created now db oc =
  (map (create_of_created now) (filter (fun t => negb (is_stored db t)) (or_empty oc)),
   map patch_of_created (filter (is_stored db) (or_empty oc))).
Proof.
  destruct oc as [l|]; simpl; [|reflexivity].
  destruct l as [|t l]; [reflexivity|].
  change (0 <? List.length (t :: l))%nat with true. cbv iota.
  now rewrite fold_stage_created.
Qed.

Lemma fold_stage_updated l : forall us,
  fold_left (fun acc u => acc ++ [patch_of_updated u]) l us =
  us ++ map patch_of_updated l.
Proof.
  induction l as [|t l IH]; simpl; intros us.
  - now rewrite app_nil_r.
  - rewrite IH. now rewrite <- app_assoc.
Qed.

Lemma stage_all_updated_eq us ou :
  stage_all_updated us ou = us ++ map patch_of_updated (or_empty ou).
Proof.
  destruct ou as [l|]; simpl; [|now rewrite app_nil_r].
  destruct l as [|t l]; [now rewrite app_nil_r|].
  change (0 <? List.length (t :: l))%nat with true. cbv iota.
  apply fold_stage_updated.
Qed.

Lemma inserts_eq now input db :
  inserts now input db =
  map (create_of_created now)
    (filter (fun t => negb (is_stored db t))
       (or_empty (created (tasks (push_changes input))))).
Proof. unfold inserts. now rewrite stage_all_created_eq. Qed.

Lemma patches_eq now input db :
  patches now input db =
  map patch_of_created
    (filter (is_stored db) (or_empty (created (tasks (push_changes input)))))
  ++ map patch_of_updated (or_empty (updated (tasks (push_changes input)))).
Proof. unfold patches. now rewrite stage_all_created_eq, stage_all_updated_eq. Qed.

Lemma transaction_eq now input db :
  transaction now input db =
  (db1 <- createMany (inserts now input db) db ;;
   update_all now (patches now input db) db1).
Proof.
  unfold transaction, inserts, patches.
  now destruct (stage_all_created now db (created (tasks (push_changes input)))).
Qed.

Lemma inserts_fresh now input db c :
  In c (inserts now input db) -> ~ In (TaskCreate.id c) (ids db).
Proof.
  rewrite inserts_eq. intros H. apply in_map_iff in H.
  destruct H as [t [Ht Hin]]. apply filter_In in Hin. destruct Hin as [_ Hns].
  subst c. simpl. unfold is_stored in Hns.
  destruct (findUnique (zTask.id t) db) eqn:E; [discriminate|].
  now apply findUnique_None.
Qed.

Lemma inserts_stamped now input db c :
  In c (inserts now input db) ->
  TaskCreate.serverCreatedAt c = now /\ TaskCreate.serverUpdatedAt c = now.
Proof.
  rewrite inserts_eq. intros H. apply in_map_iff in H.
  destruct H as [t [Ht _]]. subst c. now split.
Qed.

(** A successful transaction inserts the staged creates and then maps the
    update patches over the table; the ids of the table only grow. *)
Lemma transaction_ok now input db db' :
  transaction now input db = Ok db' ->
  update_all now (patches now input db)
    (db ++ map row_of_create (inserts now input db)) = Ok db'
  /\ ids db' = ids db ++ map TaskCreate.id (inserts now input db).
Proof.
  rewrite transaction_eq. intros H.
  destruct (createMany (inserts now input db) db) as [db1|e] eqn:E; simpl in H;
    [|discriminate].
  apply createMany_ok in E. subst db1. split; [exact H|].
  apply update_all_ids in H. rewrite H, ids_app, ids_created. reflexivity.
Qed.

Lemma transaction_wf now input db db' :
  wf_store db -> transaction now input db = Ok db' -> wf_store db'.
Proof.
  rewrite transaction_eq. intros Hwf H.
  destruct (createMany (inserts now input db) db) as [db1|e] eqn:E; simpl in H;
    [|discriminate].
  apply createMany_wf in E; [|exact Hwf].
  apply update_all_ids in H. unfold wf_store in *. now rewrite H.
Qed.

(** The primary key constraint is an invariant of the handler. *)
Lemma pushChanges_wf now input db :
  wf_store db -> wf_store (snd (pushChanges now input db)).
Proof.
  intros Hwf. unfold pushChanges.
  destruct (transaction now input db) as [db'|e] eqn:E; simpl; [|exact Hwf].
  now apply (transaction_wf now input db).
Qed.

(** ** What a sequence of updates does to a row *)

Lemma patch_row_serverUpdatedAt now p r :
  TaskRow.serverUpdatedAt (patch_row now p r) = TaskRow.serverUpdatedAt r
  \/ TaskRow.serverUpdatedAt (patch_row now p r) = now.
Proof. unfold patch_row. destruct (has_id (TaskPatch.id p) r); [now right | now left]. Qed.

(** The row found under an id is found under it afterwards, with its
    creation stamp; its update stamp is kept or becomes [now]. *)
Lemma update_all_findUnique now ps : forall db db' i r,
  update_all now ps db = Ok db' ->
  findUnique i db = Some r ->
  exists r', findUnique i db' = Some r'
    /\ TaskRow.serverCreatedAt r' = TaskRow.serverCreatedAt r
    /\ (TaskRow.serverUpdatedAt r' = TaskRow.serverUpdatedAt r
        \/ TaskRow.serverUpdatedAt r' = now).
Proof.
  induction ps as [|p ps IH]; simpl; intros db db' i r H Hf.
  - inversion H; subst. exists r. auto.
  - destruct (update now p db) as [db1|e] eqn:E; simpl in H; [|discriminate].
    apply update_ok in E. destruct E as [_ E]. subst db1.
    destruct (IH _ _ i (patch_row now p r) H) as [r' [Hr' [Hc Hu]]].
    + rewrite findUnique_patch_row, Hf. reflexivity.
    + exists r'. split; [exact Hr'|]. rewrite Hc, patch_row_serverCreatedAt.
      split; [reflexivity|].
      destruct Hu as [Hu | Hu]; [|now right].
      rewrite Hu. apply patch_row_serverUpdatedAt.
Qed.

(** Every row of the table afterwards comes from a row before. *)
Lemma update_all_rows now ps : forall db db' r',
  update_all now ps db = Ok db' ->
  In r' db' ->
  exists r, In r db
    /\ TaskRow.id r' = TaskRow.id r
    /\ TaskRow.serverCreatedAt r' = TaskRow.serverCreatedAt r
    /\ (TaskRow.serverUpdatedAt r' = TaskRow.serverUpdatedAt r
        \/ TaskRow.serverUpdatedAt r' = now).
Proof.
  induction ps as [|p ps IH]; simpl; intros db db' r' H Hin.
  - inversion H; subst. exists r'. auto.
  - destruct (update now p db) as [db1|e] eqn:E; simpl in H; [|discriminate].
    apply update_ok in E. destruct E as [_ E]. subst db1.
    destruct (IH _ _ r' H Hin) as [r1 [Hr1 [Hi [Hc Hu]]]].
    apply in_map_iff in Hr1. destruct Hr1 as [r [Hr Hrin]]. subst r1.
    exists r. split; [exact Hrin|].
    rewrite Hi, Hc, patch_row_id, patch_row_serverCreatedAt.
    split; [reflexivity | split; [reflexivity|]].
    destruct Hu as [Hu | Hu]; [|now right].
    rewrite Hu. apply patch_row_serverUpdatedAt.
Qed.

(** The row of every patch carries the update stamp [now] afterwards. *)
Lemma update_all_stamped now ps : forall db db' p,
  update_all now ps db = Ok db' ->
  In p ps ->
  exists r', findUnique (TaskPatch.id p) db' = Some r'
    /\ TaskRow.serverUpdatedAt r' = now.
Proof.
  induction ps as [|q ps IH]; simpl; intros db db' p H Hin; [contradiction|].
  destruct (update now q db) as [db1|e] eqn:E; simpl in H; [|discriminate].
  destruct Hin as [Hq | Hin]; [subst q | now apply (IH db1)].
  unfold update in E. destruct (findUnique (TaskPatch.id p) db) as [r|] eqn:Hf;
    [|discriminate].
  inversion E; subst db1; clear E.
  destruct (update_all_findUnique now ps _ _ (TaskPatch.id p) (patch_row now p r) H)
    as [r' [Hr' [_ Hu]]].
  - rewrite findUnique_patch_row, Hf. reflexivity.
  - exists r'. split; [exact Hr'|].
    assert (Hs : TaskRow.serverUpdatedAt (patch_row now p r) = now).
    { apply findUnique_Some in Hf. destruct Hf as [_ Hid].
      unfold patch_row. apply has_id_true in Hid. now rewrite Hid. }
    destruct Hu as [Hu | Hu]; [now rewrite Hu | exact Hu].
Qed.

(** ** Properties of pushChanges *)

(** C4. The update built from an inbound record, by either of the two
    places that build one, turns the stored row into one whose required
    fields are those of the payload and whose optional fields are those of
    the payload where present and unchanged where absent; so does a push
    of that one record, as an update or as a create of a stored id. *)
Theorem C4_sparse_patch now t r db :
  findUnique (zTask.id t) db = Some r ->
  (forall p, p = patch_of_updated t \/ p = patch_of_created t ->
     exists db' r', update now p db = Ok db'
       /\ findUnique (zTask.id t) db' = Some r' /\ merged t r r')
  /\ (exists db' r', pushChanges now (push_of_updated [t]) db = (Ok tt, db')
       /\ findUnique (zTask.id t) db' = Some r' /\ merged t r r')
  /\ (exists db' r',
       pushChanges now (push_of_created [t] None None None) db = (Ok tt, db')
       /\ findUnique (zTask.id t) db' = Some r' /\ merged t r r').
Proof.
  intros Hf.
  assert (Hid : has_id (zTask.id t) r = true).
  { apply findUnique_Some in Hf. now apply has_id_true. }
  assert (Hup : forall p, p = patch_of_updated t \/ p = patch_of_created t ->
     update now p db = Ok (map (patch_row now p) db)
     /\ findUnique (zTask.id t) (map (patch_row now p) db) = Some (patch_row now p r)
     /\ merged t r (patch_row now p r)).
  { intros p [Hp | Hp]; subst p; (split; [|split]).
    - unfold update. simpl. now rewrite Hf.
    - now rewrite findUnique_patch_row, Hf.
    - unfold patch_row. simpl. rewrite Hid. repeat split.
    - unfold update. simpl. now rewrite Hf.
    - now rewrite findUnique_patch_row, Hf.
    - unfold patch_row. simpl. rewrite Hid. repeat split. }
  split; [|split].
  - intros p Hp. destruct (Hup p Hp) as [H1 [H2 H3]]. eauto.
  - destruct (Hup (patch_of_updated t)) as [H1 [H2 H3]]; [now left|].
    exists (map (patch_row now (patch_of_updated t)) db), (patch_row now (patch_of_updated t) r).
    split; [|now split].
    unfold pushChanges. rewrite transaction_eq, inserts_eq, patches_eq. simpl.
    now rewrite H1.
  - destruct (Hup (patch_of_created t)) as [H1 [H2 H3]]; [now right|].
    exists (map (patch_row now (patch_of_created t)) db), (patch_row now (patch_of_created t) r).
    split; [|now split].
    unfold pushChanges. rewrite transaction_eq, inserts_eq, patches_eq. simpl.
    unfold is_stored. rewrite Hf. simpl. now rewrite H1.
Qed.


(** C7. One update sets the update stamp of its row to [now] and keeps
    the creation stamp; after a successful push the row of every update
    patch carries the update stamp [now]; and whatever the outcome of a
    push, a row stored before it is stored after it with the creation
    stamp it had. *)
Theorem C7_update_stamps now input db res db' :
  pushChanges now input db = (res, db') ->
  (forall p db0 r, findUnique (TaskPatch.id p) db0 = Some r ->
     exists db1 r1, update now p db0 = Ok db1
       /\ findUnique (TaskPatch.id p) db1 = Some r1
       /\ TaskRow.serverUpdatedAt r1 = now
       /\ TaskRow.serverCreatedAt r1 = TaskRow.serverCreatedAt r)
  /\ (res = Ok tt -> forall p, In p (patches now input db) ->
     exists r', findUnique (TaskPatch.id p) db' = Some r'
       /\ TaskRow.serverUpdatedAt r' = now)
  /\ (forall i r, findUnique i db = Some r ->
     exists r', findUnique i db' = Some r'
       /\ TaskRow.serverCreatedAt r' = TaskRow.serverCreatedAt r).
Proof.
  intros H. split.
  { intros p db0 r Hf.
    exists (map (patch_row now p) db0), (patch_row now p r).
    split; [unfold update; now rewrite Hf|].
    split; [now rewrite findUnique_patch_row, Hf|].
    split; [|apply patch_row_serverCreatedAt].
    apply findUnique_Some in Hf. destruct Hf as [_ Hid]. apply has_id_true in Hid.
    unfold patch_row. now rewrite Hid. }
  unfold pushChanges in H.
  destruct (transaction now input db) as [db2|e] eqn:E; inversion H; subst; clear H.
  - apply transaction_ok in E. destruct E as [E _]. split.
    + intros _ p Hp. now apply (update_all_stamped now _ _ _ p E).
    + intros i r Hf.
      destruct (update_all_findUnique now _ _ _ i r E) as [r' [Hr' [Hc _]]].
      * now rewrite findUnique_app, Hf.
      * eauto.
  - split; [discriminate|]. intros i r Hf. eauto.
Qed.

Lemma safeLastPulledAt_null : safeLastPulledAt None = 1.
Proof. reflexivity. Qed.

Lemma safeLastPulledAt_nonzero w : w <> 0 -> safeLastPulledAt (Some (JS.Num w)) = w.
Proof.
  intros H. unfold safeLastPulledAt. simpl.
  destruct (w =? 0) eqn:E; [apply Z.eqb_eq in E; contradiction | reflexivity].
Qed.

(** Without a migration descriptor the incremental result is kept. *)
Lemma migrate_updated_no_migration lp sv us db :
  migrate_updated (mkPullInput lp sv None) us db = Ok us.
Proof. unfold migrate_updated. simpl. now rewrite andb_false_r. Qed.

(** C5. Round trip. A batch of records with pairwise distinct ids, pushed
    as created (with no updates) into the empty table at a clock value
    above 1, is stored whole; a pull without migration descriptor, with
    [lastPulledAt] 1 or null, then reports exactly the records of the
    batch, in order, as created, and none as updated. *)
Theorem C5_round_trip now now' batch upd del lp sv :
  NoDup (map zTask.id batch) ->
  or_empty upd = [] ->
  1 < now ->
  exists db',
    pushChanges now (push_of_created batch upd del lp) [] = (Ok tt, db')
    /\ List.length db' = List.length batch
    /\ forall w, w = Some (JS.Num 1) \/ w = None ->
       pullChanges now' (mkPullInput w sv None) db' =
       Ok (mkPullOutput
             (mkChanges (mkTaskChanges (Some (map as_stored batch)) (Some []) (Some [])))
             now').
Proof.
  intros Hnd Hupd Hnow.
  set (input := push_of_created batch upd del lp).
  assert (Hins : inserts now input [] = map (create_of_created now) batch).
  { rewrite inserts_eq. simpl. now rewrite filter_all. }
  assert (Hpat : patches now input [] = []).
  { rewrite patches_eq. simpl. rewrite Hupd. simpl.
    now rewrite filter_none. }
  exists (map row_of_create (map (create_of_created now) batch)).
  split; [|split].
  - unfold pushChanges. rewrite transaction_eq, Hins, Hpat.
    rewrite createMany_total.
    + reflexivity.
    + now rewrite map_map.
    + intros c _ [].
  - now rewrite !length_map.
  - intros w Hw. unfold pullChanges. simpl lastPulledAt.
    assert (Hw1 : safeLastPulledAt w = 1) by (destruct Hw; now subst w).
    rewrite Hw1, migrate_updated_no_migration. simpl. unfold findMany.
    rewrite filter_all, filter_none.
    + simpl. rewrite !map_map. reflexivity.
    + intros r Hr. apply in_map_iff in Hr. destruct Hr as [c [Hc Hin]].
      apply in_map_iff in Hin. destruct Hin as [t [Ht _]]. subst r c.
      unfold updated_since. simpl. apply andb_false_iff. right.
      apply Z.leb_gt. exact Hnow.
    + intros r Hr. apply in_map_iff in Hr. destruct Hr as [c [Hc Hin]].
      apply in_map_iff in Hin. destruct Hin as [t [Ht _]]. subst r c.
      unfold created_since. simpl. apply Z.ltb_lt. exact Hnow.
Qed.

(** ** Outcome of a push *)

Lemma mem_In i l : mem i l = true <-> In i l.
Proof.
  unfold mem. rewrite existsb_exists. split.
  - intros [x [Hx He]]. apply String.eqb_eq in He. now subst.
  - intros H. exists i. split; [exact H | apply String.eqb_refl].
Qed.

Lemma mem_not_In i l : mem i l = false <-> ~ In i l.
Proof.
  rewrite <- mem_In. destruct (mem i l); split; intros H.
  - discriminate.
  - exfalso. now apply H.
  - discriminate.
  - reflexivity.
Qed.

Lemma is_stored_In db t : is_stored db t = true <-> In (zTask.id t) (ids db).
Proof.
  unfold is_stored. destruct (findUnique (zTask.id t) db) as [r|] eqn:E.
  - split; [intros _ | reflexivity].
    apply findUnique_Some in E. destruct E as [Hin Hid]. rewrite <- Hid. now apply in_map.
  - apply findUnique_None in E. split; [discriminate | intros H; contradiction].
Qed.

Lemma inserts_ids now input db :
  map TaskCreate.id (inserts now input db) = fresh_ids input db.
Proof. rewrite inserts_eq. unfold fresh_ids. now rewrite map_map. Qed.

Lemma fresh_ids_fresh input db i : In i (fresh_ids input db) -> ~ In i (ids db).
Proof.
  unfold fresh_ids. intros H. apply in_map_iff in H. destruct H as [t [Ht Hin]].
  apply filter_In in Hin. destruct Hin as [_ Hns]. subst i.
  intros Hs. apply is_stored_In in Hs. rewrite Hs in Hns. discriminate.
Qed.

Lemma patches_ids now input db i :
  In i (map TaskPatch.id (patches now input db)) <->
  (In i (ids db) /\ In i (map zTask.id (or_empty (created (tasks (push_changes input))))))
  \/ In i (map zTask.id (or_empty (updated (tasks (push_changes input))))).
Proof.
  rewrite patches_eq, map_app, in_app_iff, !map_map. simpl. split.
  - intros [H | H]; [left | now right].
    apply in_map_iff in H. destruct H as [t [Ht Hin]].
    apply filter_In in Hin. destruct Hin as [Hin Hs]. subst i. split.
    + now apply is_stored_In.
    + now apply in_map.
  - intros [[Hs H] | H]; [left | now right].
    apply in_map_iff in H. destruct H as [t [Ht Hin]]. apply in_map_iff.
    exists t. split; [exact Ht|].
    apply filter_In. split; [exact Hin|]. apply is_stored_In. now rewrite Ht.
Qed.

Lemma createMany_nodup data : forall db db',
  createMany data db = Ok db' ->
  NoDup (map TaskCreate.id data)
  /\ forall c, In c data -> ~ In (TaskCreate.id c) (ids db).
Proof.
  induction data as [|c data IH]; simpl; intros db db' H.
  - split; [constructor | intros c []].
  - unfold insert_row in H.
    destruct (findUnique (TaskCreate.id c) db) eqn:E; simpl in H; [discriminate|].
    apply findUnique_None in E. apply IH in H. destruct H as [Hnd Hfresh]. split.
    + constructor; [|exact Hnd]. intros Hin. apply in_map_iff in Hin.
      destruct Hin as [c' [Hc' Hin]]. apply (Hfresh c' Hin).
      rewrite ids_app. apply in_or_app. right. simpl. left. now symmetry.
    + intros c' [Hc' | Hc'].
      * now subst c'.
      * intros Hin. apply (Hfresh c' Hc'). rewrite ids_app. apply in_or_app. now left.
Qed.

(** A failed insert names a key that is stored or that the data holds
    twice. *)
Lemma createMany_err_dup data : forall db e,
  createMany data db = Err e ->
  exists k, e = UniqueConstraintFailed k
    /\ In k (map TaskCreate.id data)
    /\ (In k (ids db) \/ (2 <= count_occ string_dec (map TaskCreate.id data) k)%nat).
Proof.
  induction data as [|c data IH]; simpl; intros db e H; [discriminate|].
  unfold insert_row in H.
  destruct (findUnique (TaskCreate.id c) db) as [r|] eqn:E; simpl in H.
  - inversion H. exists (TaskCreate.id c). split; [reflexivity|]. split; [now left|].
    left. apply findUnique_Some in E. destruct E as [Hin Hid]. rewrite <- Hid.
    now apply in_map.
  - apply IH in H. destruct H as [k [He [Hin Hk]]]. exists k.
    split; [exact He|]. split; [now right|].
    pose proof (proj1 (count_occ_In string_dec (map TaskCreate.id data) k) Hin) as Hc.
    destruct (string_dec (TaskCreate.id c) k) as [Heq | Hne].
    + right. lia.
    + destruct Hk as [Hk | Hk]; [|right; lia].
      rewrite ids_app in Hk. apply in_app_or in Hk. destruct Hk as [Hk | Hk]; [now left|].
      simpl in Hk. destruct Hk as [Hk | []]. contradiction.
Qed.

Lemma update_all_ok_ids now ps : forall db db',
  update_all now ps db = Ok db' ->
  forall p, In p ps -> In (TaskPatch.id p) (ids db).
Proof.
  induction ps as [|q ps IH]; simpl; intros db db' H p Hp; [contradiction|].
  destruct (update now q db) as [db1|e] eqn:E; simpl in H; [|discriminate].
  apply update_ok in E. destruct E as [Hq E]. subst db1.
  destruct Hp as [Hp | Hp]; [now subst p|].
  rewrite <- (ids_patch_row now q db). now apply (IH _ _ H).
Qed.

Lemma update_all_err_missing now ps : forall db e,
  update_all now ps db = Err e ->
  exists p, In p ps /\ e = RecordNotFound (TaskPatch.id p)
    /\ ~ In (TaskPatch.id p) (ids db).
Proof.
  induction ps as [|q ps IH]; simpl; intros db e H; [discriminate|].
  destruct (update now q db) as [db1|e1] eqn:E; simpl in H.
  - apply update_ok in E. destruct E as [_ E]. subst db1.
    apply IH in H. destruct H as [p [Hp [He Hn]]]. exists p.
    split; [now right|]. split; [exact He|]. now rewrite ids_patch_row in Hn.
  - inversion H; subst e1. unfold update in E.
    destruct (findUnique (TaskPatch.id q) db) eqn:Hf; [discriminate|].
    inversion E. exists q. split; [now left|]. split; [reflexivity|].
    now apply findUnique_None.
Qed.

Lemma update_all_map now ps : forall db db',
  update_all now ps db = Ok db' -> db' = map (apply_seq now ps) db.
Proof.
  induction ps as [|p ps IH]; simpl; intros db db' H.
  - inversion H. unfold apply_seq. simpl. now rewrite map_id.
  - destruct (update now p db) as [db1|e] eqn:E; simpl in H; [|discriminate].
    apply update_ok in E. destruct E as [_ E]. subst db1.
    apply IH in H. subst db'. rewrite map_map. reflexivity.
Qed.

Lemma update_all_ok_iff now ps db :
  (forall p, In p ps -> In (TaskPatch.id p) (ids db)) <->
  update_all now ps db = Ok (map (apply_seq now ps) db).
Proof.
  split.
  - intros H. destruct (update_all_total now ps db H) as [db' Hdb'].
    rewrite Hdb'. f_equal. now apply update_all_map.
  - intros H. now apply (update_all_ok_ids now ps db _ H).
Qed.

(** X1. A push succeeds only if the created records whose id is not
    stored have pairwise distinct ids and the id of every updated record
    is stored or among them; the table it leaves is then the old rows
    followed by the inserted ones, each after the update patches that name
    it, applied in the order of the payload. *)
Theorem push_success_conditions now input db :
  fst (pushChanges now input db) = Ok tt ->
  NoDup (fresh_ids input db)
  /\ (forall t, In t (or_empty (updated (tasks (push_changes input)))) ->
        In (zTask.id t) (ids db ++ fresh_ids input db))
  /\ snd (pushChanges now input db)
     = map (apply_seq now (patches now input db))
         (db ++ map row_of_create (inserts now input db)).
Proof.
  unfold pushChanges. rewrite transaction_eq. intros H.
  destruct (createMany (inserts now input db) db) as [db1|e] eqn:E; simpl in H;
    [|discriminate].
  pose proof (createMany_nodup _ _ _ E) as [Hnd _].
  apply createMany_ok in E. subst db1. rewrite inserts_ids in Hnd. simpl.
  destruct (update_all now (patches now input db) _) as [db2|e] eqn:E2;
    [|discriminate].
  split; [exact Hnd|]. split.
  - intros t Ht. rewrite <- (inserts_ids now), <- ids_created, <- ids_app.
    apply (update_all_ok_ids _ _ _ _ E2 (patch_of_updated t)).
    rewrite patches_eq. apply in_or_app. right. now apply in_map.
  - simpl. now apply update_all_map.
Qed.

(** ** What updates do to one row *)

Lemma patch_row_other now p r :
  TaskRow.id r <> TaskPatch.id p -> patch_row now p r = r.
Proof.
  intros H. unfold patch_row. apply has_id_false in H. now rewrite H.
Qed.

Lemma patch_row_same now p r :
  TaskRow.id r = TaskPatch.id p -> patch_row now p r = apply_patch now p r.
Proof.
  intros H. unfold patch_row. apply has_id_true in H. now rewrite H.
Qed.

Lemma apply_seq_cons now p ps r :
  apply_seq now (p :: ps) r = apply_seq now ps (patch_row now p r).
Proof. reflexivity. Qed.

Lemma apply_seq_app now ps qs r :
  apply_seq now (ps ++ qs) r = apply_seq now qs (apply_seq now ps r).
Proof. unfold apply_seq. apply fold_left_app. Qed.

Lemma apply_seq_id now ps : forall r,
  TaskRow.id (apply_seq now ps r) = TaskRow.id r.
Proof.
  induction ps as [|p ps IH]; intros r; [reflexivity|].
  rewrite apply_seq_cons, IH. apply patch_row_id.
Qed.

Lemma apply_seq_untouched now ps : forall r,
  ~ In (TaskRow.id r) (map TaskPatch.id ps) -> apply_seq now ps r = r.
Proof.
  induction ps as [|p ps IH]; intros r H; [reflexivity|].
  rewrite apply_seq_cons, patch_row_other.
  - apply IH. intros Hin. apply H. now right.
  - intros Heq. apply H. left. now symmetry.
Qed.

Lemma findUnique_map i (f : TaskRow.t -> TaskRow.t) db :
  (forall r, TaskRow.id (f r) = TaskRow.id r) ->
  findUnique i (map f db) = option_map f (findUnique i db).
Proof.
  intros Hf. unfold findUnique. induction db as [|r db IH]; simpl; [reflexivity|].
  unfold has_id at 1. rewrite Hf. fold (has_id i r).
  destruct (has_id i r); [reflexivity | exact IH].
Qed.

(** Two updates of one id act as the update with the composed patch. *)
Lemma patch_row_compose now p q r :
  TaskPatch.id p = TaskPatch.id q ->
  patch_row now q (patch_row now p r) = patch_row now (compose p q) r.
Proof.
  intros Hpq. unfold patch_row at 2 3. simpl. rewrite Hpq.
  destruct (has_id (TaskPatch.id q) r) eqn:E.
  - rewrite patch_row_same by (simpl; now symmetry).
    unfold apply_patch, compose. simpl.
    destruct (TaskPatch.isUrgent q), (TaskPatch.comment q); reflexivity.
  - apply patch_row_other. now apply has_id_false.
Qed.

(** Updates of different ids commute. *)
Lemma patch_row_swap now p q r :
  TaskPatch.id p <> TaskPatch.id q ->
  patch_row now q (patch_row now p r) = patch_row now p (patch_row now q r).
Proof.
  intros Hpq.
  destruct (string_dec (TaskRow.id r) (TaskPatch.id p)) as [Hp | Hp].
  - assert (Hq : TaskRow.id r <> TaskPatch.id q) by congruence.
    rewrite (patch_row_other now q r Hq).
    apply patch_row_other. now rewrite patch_row_id.
  - rewrite (patch_row_other now p r Hp).
    symmetry. apply patch_row_other. now rewrite patch_row_id.
Qed.

Lemma apply_seq_permutation now ps ps' :
  Permutation ps ps' -> NoDup (map TaskPatch.id ps) ->
  forall r, apply_seq now ps r = apply_seq now ps' r.
Proof.
  induction 1 as [|x l l' Hp IH|x y l|l l' l'' Hp1 IH1 Hp2 IH2]; intros Hnd r.
  - reflexivity.
  - rewrite !apply_seq_cons. apply IH. now inversion Hnd.
  - rewrite !apply_seq_cons. f_equal. apply patch_row_swap.
    simpl in Hnd. inversion Hnd as [|? ? Hy _]. intros Heq. apply Hy. left. now symmetry.
  - rewrite IH1 by exact Hnd. apply IH2.
    apply (Permutation_NoDup (l := map TaskPatch.id l)); [|exact Hnd].
    now apply Permutation_map.
Qed.

(** ** Further properties of pushChanges *)

(** X3. A push never removes a row: the id column afterwards is the old
    one, followed on success by the ids of the inserted records. The ids
    listed in [deleted] are not read; a stored row they name stays. *)
Theorem push_never_removes now input db :
  ids (snd (pushChanges now input db)) =
  ids db ++ match fst (pushChanges now input db) with
            | Ok _ => fresh_ids input db
            | Err _ => []
            end
  /\ forall i, In i (or_empty (deleted (tasks (push_changes input)))) ->
       In i (ids db) -> In i (ids (snd (pushChanges now input db))).
Proof.
  assert (H : ids (snd (pushChanges now input db)) =
              ids db ++ match fst (pushChanges now input db) with
                        | Ok _ => fresh_ids input db
                        | Err _ => []
                        end).
  { unfold pushChanges. destruct (transaction now input db) as [db'|e] eqn:E; simpl.
    - apply transaction_ok in E. destruct E as [_ E]. now rewrite E, inserts_ids.
    - now rewrite app_nil_r. }
  split; [exact H|]. intros i _ Hi. rewrite H. apply in_or_app. now left.
Qed.

(** X4. A push leaves alone every row whose id its created and updated
    arrays do not name: such an id finds afterwards the row it found
    before. *)
Theorem push_frame now input db i :
  ~ In i (mentions input) ->
  findUnique i (snd (pushChanges now input db)) = findUnique i db.
Proof.
  intros Hi. unfold pushChanges.
  destruct (transaction now input db) as [db'|e] eqn:E; simpl; [|reflexivity].
  apply transaction_ok in E. destruct E as [E _]. apply update_all_map in E. subst db'.
  rewrite findUnique_map by (intros r; apply apply_seq_id).
  assert (Hnew : findUnique i (map row_of_create (inserts now input db)) = None).
  { apply findUnique_None. rewrite ids_created, inserts_ids. intros H. apply Hi.
    unfold fresh_ids in H. apply in_map_iff in H. destruct H as [t [Ht Hin]].
    apply filter_In in Hin. unfold mentions. rewrite map_app. apply in_or_app. left.
    rewrite <- Ht. apply in_map. tauto. }
  rewrite findUnique_app, Hnew.
  destruct (findUnique i db) as [r|] eqn:Hf; [|reflexivity].
  simpl. f_equal. apply apply_seq_untouched.
  apply findUnique_Some in Hf. destruct Hf as [_ Hid]. rewrite Hid.
  intros H. apply patches_ids in H. apply Hi. unfold mentions.
  rewrite map_app. apply in_or_app. tauto.
Qed.

(** X5. Two consecutive update queries for one id act as the single query
    with the composed patch: the fields of the later one win, and an
    optional field the later one omits keeps the value of the earlier. *)
Theorem updates_same_id_compose now ps p q qs db :
  TaskPatch.id p = TaskPatch.id q ->
  update_all now (ps ++ p :: q :: qs) db =
  update_all now (ps ++ compose p q :: qs) db.
Proof.
  intros Hpq. revert db. induction ps as [|x ps IH]; intros db.
  - simpl. unfold update at 1 3. simpl. rewrite <- Hpq.
    destruct (findUnique (TaskPatch.id p) db) as [r|] eqn:Hf; simpl; [|reflexivity].
    unfold update. rewrite findUnique_patch_row, <- Hpq, Hf. simpl.
    rewrite map_map. f_equal. apply map_ext. intros r'.
    now apply patch_row_compose.
  - simpl. destruct (update now x db); simpl; [apply IH | reflexivity].
Qed.

(** X6. When the update patches name pairwise distinct ids, the table
    they produce does not depend on the order in which the queries are
    applied. *)
Theorem updates_distinct_ids_commute now ps ps' db db' :
  NoDup (map TaskPatch.id ps) ->
  Permutation ps ps' ->
  update_all now ps db = Ok db' ->
  update_all now ps' db = Ok db'.
Proof.
  intros Hnd Hperm H.
  pose proof (update_all_ok_ids now ps db db' H) as Hids.
  apply update_all_map in H. subst db'.
  rewrite (proj1 (update_all_ok_iff now ps' db)).
  - apply (f_equal Ok). apply map_ext. intros r. symmetry.
    now apply apply_seq_permutation.
  - intros p Hp. apply Hids. apply (Permutation_in p (Permutation_sym Hperm) Hp).
Qed.

(** X7. With a clock that does not run backwards, a push keeps the order
    of the stamps: if every row has its creation stamp at most its update
    stamp and that one at most [t], and the push reads a clock value [now]
    of at least [t], the same holds afterwards with [now] for [t]. *)
Theorem push_keeps_stamp_order t now input db :
  stamps_le t db ->
  t <= now ->
  stamps_le now (snd (pushChanges now input db)).
Proof.
  intros Hdb Ht. unfold pushChanges.
  destruct (transaction now input db) as [db'|e] eqn:E; simpl.
  - apply transaction_ok in E. destruct E as [E _]. intros r' Hr'.
    destruct (update_all_rows _ _ _ _ r' E Hr') as [r [Hr [_ [Hc Hu]]]].
    assert (Hr0 : TaskRow.serverCreatedAt r <= TaskRow.serverUpdatedAt r
                  /\ TaskRow.serverUpdatedAt r <= now).
    { apply in_app_or in Hr. destruct Hr as [Hr | Hr].
      - destruct (Hdb r Hr). lia.
      - apply in_map_iff in Hr. destruct Hr as [c [Hc' Hcin]]. subst r.
        apply inserts_stamped in Hcin. simpl. lia. }
    rewrite Hc. destruct Hu as [Hu | Hu]; rewrite Hu; lia.
  - intros r Hr. destruct (Hdb r Hr). lia.
Qed.

(** ** Sequences of patches as one patch *)

Lemma summary_cons i acc q ps :
  summary i acc (q :: ps) = summary i (summary_step i acc q) ps.
Proof. reflexivity. Qed.

Lemma opt_apply_id now acc r :
  (forall a, acc = Some a -> TaskPatch.id a = TaskRow.id r) ->
  TaskRow.id (opt_apply now acc r) = TaskRow.id r.
Proof. destruct acc as [a|]; simpl; intros H; [now apply H | reflexivity]. Qed.

Lemma apply_patch_compose now a q r :
  apply_patch now q (apply_patch now a r) = apply_patch now (compose a q) r.
Proof.
  unfold apply_patch, compose. simpl.
  destruct (TaskPatch.isUrgent q), (TaskPatch.comment q); reflexivity.
Qed.

Lemma patch_row_opt_apply now acc q r :
  (forall a, acc = Some a -> TaskPatch.id a = TaskRow.id r) ->
  patch_row now q (opt_apply now acc r)
  = opt_apply now (summary_step (TaskRow.id r) acc q) r.
Proof.
  intros Hacc. unfold summary_step.
  destruct (String.eqb (TaskPatch.id q) (TaskRow.id r)) eqn:E.
  - apply String.eqb_eq in E.
    rewrite patch_row_same by (rewrite opt_apply_id by exact Hacc; now symmetry).
    destruct acc as [a|]; simpl; [apply apply_patch_compose | reflexivity].
  - apply String.eqb_neq in E. apply patch_row_other.
    rewrite opt_apply_id by exact Hacc. intros H. apply E. now symmetry.
Qed.

Lemma summary_step_id i acc q a :
  (forall a0, acc = Some a0 -> TaskPatch.id a0 = i) ->
  summary_step i acc q = Some a -> TaskPatch.id a = i.
Proof.
  unfold summary_step. intros Hacc.
  destruct (String.eqb (TaskPatch.id q) i) eqn:E; [|apply Hacc].
  apply String.eqb_eq in E. intros H. inversion H. now destruct acc.
Qed.

Lemma summary_id i ps : forall acc a,
  (forall a0, acc = Some a0 -> TaskPatch.id a0 = i) ->
  summary i acc ps = Some a -> TaskPatch.id a = i.
Proof.
  induction ps as [|q ps IH]; intros acc a Hacc H; [now apply Hacc|].
  rewrite summary_cons in H.
  apply (IH (summary_step i acc q)); [|exact H].
  intros a0. now apply summary_step_id.
Qed.

(** The effect of a sequence of updates on a row is that of one patch. *)
Lemma apply_seq_summary now ps : forall acc r,
  (forall a, acc = Some a -> TaskPatch.id a = TaskRow.id r) ->
  apply_seq now ps (opt_apply now acc r)
  = opt_apply now (summary (TaskRow.id r) acc ps) r.
Proof.
  induction ps as [|q ps IH]; intros acc r Hacc; [reflexivity|].
  rewrite apply_seq_cons, patch_row_opt_apply by exact Hacc.
  apply IH. intros a. now apply summary_step_id.
Qed.

Lemma summary_app i acc ps qs :
  summary i acc (ps ++ qs) = summary i (summary i acc ps) qs.
Proof. unfold summary. apply fold_left_app. Qed.

Lemma summary_no_match i ps : forall acc,
  ~ In i (map TaskPatch.id ps) -> summary i acc ps = acc.
Proof.
  induction ps as [|q ps IH]; intros acc H; [reflexivity|].
  rewrite summary_cons. unfold summary_step.
  destruct (String.eqb (TaskPatch.id q) i) eqn:E.
  - apply String.eqb_eq in E. exfalso. apply H. now left.
  - apply IH. intros Hin. apply H. now right.
Qed.

Lemma summary_match i ps : forall acc,
  In i (map TaskPatch.id ps) -> summary i acc ps <> None.
Proof.
  induction ps as [|q ps IH]; intros acc H; [contradiction|].
  rewrite summary_cons.
  destruct (in_dec string_dec i (map TaskPatch.id ps)) as [Hin | Hnin].
  - now apply IH.
  - rewrite summary_no_match by exact Hnin.
    destruct H as [H | H]; [|contradiction].
    unfold summary_step. rewrite H, String.eqb_refl. discriminate.
Qed.

Lemma compose_assoc a p q : compose (compose a p) q = compose a (compose p q).
Proof.
  unfold compose. simpl.
  destruct (TaskPatch.isUrgent q), (TaskPatch.comment q); reflexivity.
Qed.

(** Patches applied after [a]: [a] composed with what they amount to. *)
Lemma summary_after i ps : forall a,
  summary i (Some a) ps
  = Some (match summary i None ps with
          | Some u => compose a u
          | None => a
          end).
Proof.
  induction ps as [|q ps IH] using rev_ind; intros a; [reflexivity|].
  rewrite !summary_app, !summary_cons. simpl summary. rewrite IH. unfold summary_step.
  destruct (String.eqb (TaskPatch.id q) i); [|reflexivity].
  destruct (summary i None ps); [now rewrite compose_assoc | reflexivity].
Qed.

Lemma is_stored_id db t t' :
  zTask.id t = zTask.id t' -> is_stored db t = is_stored db t'.
Proof. intros H. unfold is_stored. now rewrite H. Qed.

(** For a stored id, the reclassified creates are all the creates. *)
Lemma summary_stored_creates db i l : forall acc,
  In i (ids db) ->
  summary i acc (map patch_of_created (filter (is_stored db) l))
  = summary i acc (map patch_of_created l).
Proof.
  induction l as [|x l IH]; intros acc Hi; [reflexivity|]. simpl filter.
  destruct (is_stored db x) eqn:E; simpl map; rewrite ?summary_cons; [now apply IH|].
  rewrite IH by exact Hi. unfold summary_step. simpl TaskPatch.id.
  destruct (String.eqb (zTask.id x) i) eqn:Ex; [|reflexivity].
  apply String.eqb_eq in Ex. subst i. apply is_stored_In in Hi.
  rewrite Hi in E. discriminate.
Qed.

(** For an id that is not stored and that the creates of a successful
    push name, the creates amount to the patch of the one record of that
    id. *)
Lemma summary_fresh_create db l : forall c,
  NoDup (map zTask.id (filter (fun t => negb (is_stored db t)) l)) ->
  In c l ->
  is_stored db c = false ->
  summary (zTask.id c) None (map patch_of_created l) = Some (patch_of_created c).
Proof.
  induction l as [|x l IH]; intros c Hnd Hc Hs; [contradiction|].
  simpl map. rewrite summary_cons. unfold summary_step. simpl TaskPatch.id.
  destruct (String.eqb (zTask.id x) (zTask.id c)) eqn:E.
  - apply String.eqb_eq in E.
    simpl in Hnd. rewrite (is_stored_id db x c E), Hs in Hnd. simpl in Hnd.
    inversion Hnd as [|? ? Hx _]; subst.
    assert (Hnone : forall t, In t l -> zTask.id t <> zTask.id c).
    { intros t Ht Heq. apply Hx. rewrite E, <- Heq. apply in_map.
      apply filter_In. split; [exact Ht|].
      rewrite (is_stored_id db t c Heq), Hs. reflexivity. }
    rewrite summary_no_match.
    + destruct Hc as [Hc | Hc]; [now subst x|].
      exfalso. now apply (Hnone c Hc).
    + rewrite map_map. simpl. intros Hin. apply in_map_iff in Hin.
      destruct Hin as [t [Ht Hin]]. now apply (Hnone t Hin).
  - apply String.eqb_neq in E. apply IH; [| |exact Hs].
    + simpl in Hnd. destruct (negb (is_stored db x)); [now inversion Hnd | exact Hnd].
    + destruct Hc as [Hc | Hc]; [|exact Hc]. subst x. now contradiction E.
Qed.

Lemma retry_patches_ids input :
  map TaskPatch.id (retry_patches input) = mentions input.
Proof.
  unfold retry_patches, mentions. now rewrite !map_app, !map_map.
Qed.

Lemma ids_apply_seq now ps db : ids (map (apply_seq now ps) db) = ids db.
Proof.
  unfold ids. rewrite map_map. apply map_ext. intros r. apply apply_seq_id.
Qed.

(** One patch applied twice: the second time only the update stamp
    changes. *)
Lemma apply_patch_twice now now' a r :
  apply_patch now' a (apply_patch now a r) = touch now' (apply_patch now a r).
Proof.
  unfold apply_patch, touch. simpl.
  destruct (TaskPatch.isUrgent a), (TaskPatch.comment a); reflexivity.
Qed.

(** What the retried push does to a row of the table the first push
    left. *)
Lemma retry_row now now' input db r0 :
  NoDup (fresh_ids input db) ->
  In r0 (db ++ map row_of_create (inserts now input db)) ->
  apply_seq now' (retry_patches input) (apply_seq now (patches now input db) r0)
  = if mem (TaskRow.id r0) (mentions input)
    then touch now' (apply_seq now (patches now input db) r0)
    else apply_seq now (patches now input db) r0.
Proof.
  intros Hnd Hr0.
  set (i := TaskRow.id r0).
  set (cs := or_empty (created (tasks (push_changes input)))).
  set (us := or_empty (updated (tasks (push_changes input)))).
  assert (H1 : apply_seq now (patches now input db) r0
               = opt_apply now (summary i None (patches now input db)) r0).
  { apply (apply_seq_summary now _ None r0). discriminate. }
  rewrite H1.
  assert (Hid1 : TaskRow.id (opt_apply now (summary i None (patches now input db)) r0) = i).
  { apply opt_apply_id. intros a Ha.
    apply (summary_id i (patches now input db) None a); [discriminate | exact Ha]. }
  assert (H2 : forall r, TaskRow.id r = i ->
     apply_seq now' (retry_patches input) r
     = opt_apply now' (summary i None (retry_patches input)) r).
  { intros r Hr. rewrite <- Hr. apply (apply_seq_summary now' _ None r). discriminate. }
  rewrite H2 by exact Hid1. clear H1 H2 Hid1.
  destruct (mem i (mentions input)) eqn:Hm.
  2:{ apply mem_not_In in Hm. rewrite <- retry_patches_ids in Hm.
      now rewrite summary_no_match. }
  apply mem_In in Hm.
  apply in_app_or in Hr0. destruct Hr0 as [Hr0 | Hr0].
  - (* a row that was stored before the first push *)
    assert (Hi : In i (ids db)) by (now apply in_map).
    assert (Hs : summary i None (patches now input db)
                 = summary i None (retry_patches input)).
    { rewrite patches_eq. unfold retry_patches. fold cs us.
      rewrite !summary_app. f_equal. now apply summary_stored_creates. }
    rewrite Hs.
    destruct (summary i None (retry_patches input)) as [a|] eqn:Ha.
    + simpl. apply apply_patch_twice.
    + exfalso. apply (summary_match i (retry_patches input) None); [|exact Ha].
      now rewrite retry_patches_ids.
  - (* a row the first push inserted *)
    apply in_map_iff in Hr0. destruct Hr0 as [c0 [Hc0 Hin]].
    rewrite inserts_eq in Hin. apply in_map_iff in Hin. destruct Hin as [c [Hc Hin]].
    fold cs in Hin. apply filter_In in Hin. destruct Hin as [Hcin Hcs].
    apply negb_true_iff in Hcs.
    assert (Hic : i = zTask.id c) by (unfold i; subst r0 c0; reflexivity).
    assert (Hfresh : ~ In i (ids db)).
    { rewrite Hic. intros Hin. apply is_stored_In in Hin. rewrite Hin in Hcs. discriminate. }
    assert (Hs1 : summary i None (patches now input db)
                  = summary i None (map patch_of_updated us)).
    { rewrite patches_eq. fold cs us. rewrite summary_app. f_equal.
      apply summary_no_match. rewrite map_map. simpl. intros Hin.
      apply in_map_iff in Hin. destruct Hin as [t [Ht Htin]].
      apply filter_In in Htin. destruct Htin as [_ Hts].
      apply Hfresh. rewrite <- Ht. now apply is_stored_In. }
    assert (Hs2 : summary i None (retry_patches input)
                  = summary i (Some (patch_of_created c)) (map patch_of_updated us)).
    { unfold retry_patches. fold cs us. rewrite summary_app. f_equal.
      rewrite Hic. apply (summary_fresh_create db); auto. }
    rewrite Hs1, Hs2, summary_after.
    destruct (summary i None (map patch_of_updated us)) as [u|]; simpl;
      subst r0 c0; unfold apply_patch, touch, compose, row_of_create, or_default; simpl.
    + destruct (TaskPatch.isUrgent u), (TaskPatch.comment u),
        (zTask.is_urgent c), (zTask.comment c); reflexivity.
    + destruct (zTask.is_urgent c), (zTask.comment c); reflexivity.
Qed.

(** X8. Retrying a push that succeeded is safe: the same payload pushed
    again onto the table the first push left succeeds, inserts nothing,
    and changes nothing but the update stamp of the rows the payload
    names. *)
Theorem push_retry_is_idempotent now now' input db db1 :
  pushChanges now input db = (Ok tt, db1) ->
  pushChanges now' input db1 =
  (Ok tt, map (fun r => if mem (TaskRow.id r) (mentions input)
                        then touch now' r else r) db1).
Proof.
  intros H. unfold pushChanges in H.
  destruct (transaction now input db) as [db1'|e] eqn:E; inversion H; subst db1'; clear H.
  rewrite transaction_eq in E.
  destruct (createMany (inserts now input db) db) as [db0|e] eqn:Ec; simpl in E;
    [|discriminate].
  pose proof (createMany_nodup _ _ _ Ec) as [Hnd _]. rewrite inserts_ids in Hnd.
  apply createMany_ok in Ec. subst db0.
  pose proof (update_all_ok_ids _ _ _ _ E) as Hids.
  apply update_all_map in E.
  assert (Hids1 : ids db1 = ids db ++ fresh_ids input db).
  { rewrite E, ids_apply_seq, ids_app, ids_created. now rewrite inserts_ids. }
  assert (Hcs : forall t, In t (or_empty (created (tasks (push_changes input)))) ->
                  is_stored db1 t = true).
  { intros t Ht. apply is_stored_In. rewrite Hids1. apply in_or_app.
    destruct (is_stored db t) eqn:Hs; [left; now apply is_stored_In | right].
    unfold fresh_ids. apply in_map. apply filter_In. split; [exact Ht | now rewrite Hs]. }
  assert (Hins : inserts now' input db1 = []).
  { rewrite inserts_eq, filter_none; [reflexivity|].
    intros t Ht. now rewrite Hcs. }
  assert (Hpat : patches now' input db1 = retry_patches input).
  { rewrite patches_eq. unfold retry_patches. now rewrite filter_all. }
  unfold pushChanges. rewrite transaction_eq, Hins, Hpat. simpl.
  rewrite (proj1 (update_all_ok_iff now' (retry_patches input) db1)).
  - f_equal. apply map_ext_in. intros r1 Hr1. rewrite E in Hr1.
    apply in_map_iff in Hr1. destruct Hr1 as [r0 [Hr0 Hin]]. subst r1.
    rewrite apply_seq_id. now apply retry_row.
  - intros p Hp. unfold retry_patches in Hp. apply in_app_or in Hp.
    destruct Hp as [Hp | Hp]; apply in_map_iff in Hp; destruct Hp as [t [Ht Hin]];
      subst p; simpl.
    + apply is_stored_In. now apply Hcs.
    + rewrite Hids1, <- (inserts_ids now), <- ids_created, <- ids_app.
      apply (Hids (patch_of_updated t)). rewrite patches_eq.
      apply in_or_app. right. now apply in_map.
Qed.

(** ** Stamps after a push *)

Lemma opt_apply_stamps now o r :
  TaskRow.serverCreatedAt (opt_apply now o r) = TaskRow.serverCreatedAt r
  /\ TaskRow.serverUpdatedAt (opt_apply now o r)
     = match o with
       | Some _ => now
       | None => TaskRow.serverUpdatedAt r
       end.
Proof. destruct o; split; reflexivity. Qed.

(** The stamps of a row after a sequence of updates: the creation stamp
    is kept; the update stamp is [now] when a patch names the row and is
    kept otherwise. *)
Lemma apply_seq_stamps now ps r :
  TaskRow.serverCreatedAt (apply_seq now ps r) = TaskRow.serverCreatedAt r
  /\ TaskRow.serverUpdatedAt (apply_seq now ps r)
     = if mem (TaskRow.id r) (map TaskPatch.id ps) then now
       else TaskRow.serverUpdatedAt r.
Proof.
  pose proof (apply_seq_summary now ps None r) as H. simpl in H.
  rewrite H by discriminate.
  destruct (opt_apply_stamps now (summary (TaskRow.id r) None ps) r) as [Hc Hu].
  split; [exact Hc|]. rewrite Hu.
  destruct (mem (TaskRow.id r) (map TaskPatch.id ps)) eqn:Hm.
  - apply mem_In in Hm. apply (summary_match _ _ None) in Hm.
    now destruct (summary (TaskRow.id r) None ps).
  - apply mem_not_In in Hm. now rewrite summary_no_match.
Qed.

(** The rows of the table after a successful push. A row under an id that
    was stored keeps its creation stamp, and has the update stamp [now]
    when the payload names it and its old one otherwise; a row under a
    new id has both stamps [now]. *)
Lemma push_rows_stamps now input db db' r' :
  pushChanges now input db = (Ok tt, db') ->
  In r' db' ->
  (In (TaskRow.id r') (ids db) /\
   exists r, In r db /\ TaskRow.id r = TaskRow.id r'
     /\ TaskRow.serverCreatedAt r' = TaskRow.serverCreatedAt r
     /\ TaskRow.serverUpdatedAt r'
        = if mem (TaskRow.id r') (mentions input) then now
          else TaskRow.serverUpdatedAt r)
  \/ (~ In (TaskRow.id r') (ids db)
      /\ TaskRow.serverCreatedAt r' = now /\ TaskRow.serverUpdatedAt r' = now).
Proof.
  intros H Hr'. unfold pushChanges in H.
  destruct (transaction now input db) as [db2|e] eqn:E; inversion H; subst db2; clear H.
  apply transaction_ok in E. destruct E as [E _]. apply update_all_map in E.
  rewrite E in Hr'. apply in_map_iff in Hr'. destruct Hr' as [r0 [Hr0 Hin]]. subst r'.
  destruct (apply_seq_stamps now (patches now input db) r0) as [Hc Hu].
  rewrite apply_seq_id, Hc, Hu.
  apply in_app_or in Hin. destruct Hin as [Hin | Hin].
  - left. assert (Hi : In (TaskRow.id r0) (ids db)) by now apply in_map.
    split; [exact Hi|]. exists r0. repeat split; [exact Hin|].
    assert (Hm : mem (TaskRow.id r0) (map TaskPatch.id (patches now input db))
                 = mem (TaskRow.id r0) (mentions input)).
    { destruct (mem (TaskRow.id r0) (mentions input)) eqn:Hm.
      - apply mem_In. apply patches_ids. apply mem_In in Hm. unfold mentions in Hm.
        rewrite map_app in Hm. apply in_app_or in Hm. tauto.
      - apply mem_not_In. apply mem_not_In in Hm. intros Hp. apply Hm.
        apply patches_ids in Hp. unfold mentions. rewrite map_app. apply in_or_app. tauto. }
    now rewrite Hm.
  - right. apply in_map_iff in Hin. destruct Hin as [c [Hc0 Hcin]]. subst r0.
    pose proof (inserts_fresh _ _ _ _ Hcin) as Hf.
    apply inserts_stamped in Hcin. destruct Hcin as [H1 H2]. simpl.
    split; [exact Hf|]. split; [exact H1|].
    now destruct (mem (TaskCreate.id c) (map TaskPatch.id (patches now input db))).
Qed.

Lemma push_stamps_at_most w now input db :
  (forall r, In r db ->
     TaskRow.serverCreatedAt r <= w /\ TaskRow.serverUpdatedAt r <= w) ->
  now <= w ->
  forall r, In r (snd (pushChanges now input db)) ->
    TaskRow.serverCreatedAt r <= w /\ TaskRow.serverUpdatedAt r <= w.
Proof.
  intros Hdb Hnow r' Hr'.
  destruct (pushChanges now input db) as [res db'] eqn:E. simpl in Hr'.
  assert (Hres : res = Ok tt \/ db' = db).
  { unfold pushChanges in E. destruct (transaction now input db); inversion E; auto. }
  destruct Hres as [Hres | Hres]; [subst res | subst db'; now apply Hdb].
  destruct (push_rows_stamps _ _ _ _ r' E Hr') as [[_ [r [Hr [_ [Hc Hu]]]]] | [_ [Hc Hu]]].
  - destruct (Hdb r Hr). rewrite Hc, Hu.
    destruct (mem (TaskRow.id r') (mentions input)); lia.
  - lia.
Qed.

(** ** Looking up what a push wrote *)

Lemma NoDup_map_inj {A B : Type} (f : A -> B) (l : list A) x y :
  NoDup (map f l) -> In x l -> In y l -> f x = f y -> x = y.
Proof.
  induction l as [|a l IH]; simpl; [tauto|].
  intros Hnd [Hx | Hx] [Hy | Hy] Hf; inversion Hnd as [|? ? Ha Hnd']; subst.
  - reflexivity.
  - exfalso. apply Ha. rewrite Hf. now apply in_map.
  - exfalso. apply Ha. rewrite <- Hf. now apply in_map.
  - now apply IH.
Qed.

(** In a list that names an id once, the patches for that id amount to
    the one patch of that id. *)
Lemma summary_unique ps : forall p,
  In p ps ->
  count_occ string_dec (map TaskPatch.id ps) (TaskPatch.id p) = 1%nat ->
  summary (TaskPatch.id p) None ps = Some p.
Proof.
  induction ps as [|x ps IH]; intros p Hp Hc; [contradiction|].
  rewrite summary_cons. unfold summary_step. simpl in Hc.
  destruct (string_dec (TaskPatch.id x) (TaskPatch.id p)) as [E | E].
  - rewrite E, String.eqb_refl.
    assert (Hnone : ~ In (TaskPatch.id p) (map TaskPatch.id ps)).
    { apply (count_occ_not_In string_dec). lia. }
    rewrite summary_no_match by exact Hnone.
    destruct Hp as [Hp | Hp]; [now subst x|].
    exfalso. apply Hnone. now apply in_map.
  - apply String.eqb_neq in E. rewrite E.
    destruct Hp as [Hp | Hp]; [subst x; apply String.eqb_neq in E; now contradiction E|].
    now apply IH.
Qed.

Lemma count_occ_filter_le {A : Type} (f : A -> string) (g : A -> bool) l i :
  (count_occ string_dec (map f (filter g l)) i
   <= count_occ string_dec (map f l) i)%nat.
Proof.
  induction l as [|x l IH]; simpl; [lia|].
  destruct (g x); simpl; destruct (string_dec (f x) i); lia.
Qed.

(** X15. Insert and lookup. After a successful push, a created record
    whose id was not stored and that the updated array does not name is
    found under its id as the row the insert wrote: its own fields, both
    server stamps equal to the clock value of the push, and for an
    optional field it omits the default of the column. *)
Theorem push_then_find_created now input db db' t :
  pushChanges now input db = (Ok tt, db') ->
  In t (or_empty (created (tasks (push_changes input)))) ->
  ~ In (zTask.id t) (ids db) ->
  ~ In (zTask.id t) (map zTask.id (or_empty (updated (tasks (push_changes input))))) ->
  findUnique (zTask.id t) db' = Some (row_of_create (create_of_created now t))
  /\ to_wire (row_of_create (create_of_created now t)) = as_stored t.
Proof.
  intros H Ht Hfresh Hnu. split; [|reflexivity]. unfold pushChanges in H.
  destruct (transaction now input db) as [db2|e] eqn:E; inversion H; subst db2; clear H.
  rewrite transaction_eq in E.
  destruct (createMany (inserts now input db) db) as [db0|e] eqn:Ec; simpl in E;
    [|discriminate].
  pose proof (createMany_nodup _ _ _ Ec) as [Hnd _].
  apply createMany_ok in Ec. subst db0. apply update_all_map in E. subst db'.
  rewrite findUnique_map by (intros r; apply apply_seq_id).
  rewrite findUnique_app, (proj2 (findUnique_None _ _) Hfresh).
  assert (Hts : is_stored db t = false).
  { destruct (is_stored db t) eqn:Hs; [|reflexivity].
    apply is_stored_In in Hs. contradiction. }
  assert (Hin : In (create_of_created now t) (inserts now input db)).
  { rewrite inserts_eq. apply in_map. apply filter_In. split; [exact Ht | now rewrite Hts]. }
  destruct (findUnique_In (zTask.id t) (map row_of_create (inserts now input db)))
    as [r0 Hr0].
  { rewrite ids_created. now apply (in_map TaskCreate.id) in Hin. }
  rewrite Hr0. simpl. f_equal.
  apply findUnique_Some in Hr0. destruct Hr0 as [Hr0 Hid].
  apply in_map_iff in Hr0. destruct Hr0 as [c [Hc Hcin]]. subst r0. simpl in Hid.
  assert (c = create_of_created now t).
  { apply (NoDup_map_inj TaskCreate.id (inserts now input db)); auto. }
  subst c. apply apply_seq_untouched. simpl. intros Hp.
  apply patches_ids in Hp. tauto.
Qed.

(** X16. Update and lookup. After a successful push, a record of the
    payload whose id was stored and that the payload names once is found
    under its id as the old row merged with it: required fields from the
    record, optional fields from the record where present and from the
    old row where absent, creation stamp kept, update stamp the clock
    value of the push. *)
Theorem push_then_find_updated now input db db' t r :
  pushChanges now input db = (Ok tt, db') ->
  In t (or_empty (created (tasks (push_changes input)))
        ++ or_empty (updated (tasks (push_changes input)))) ->
  count_occ string_dec (mentions input) (zTask.id t) = 1%nat ->
  findUnique (zTask.id t) db = Some r ->
  findUnique (zTask.id t) db' = Some (apply_patch now (patch_of_updated t) r)
  /\ merged t r (apply_patch now (patch_of_updated t) r)
  /\ TaskRow.serverCreatedAt (apply_patch now (patch_of_updated t) r)
     = TaskRow.serverCreatedAt r
  /\ TaskRow.serverUpdatedAt (apply_patch now (patch_of_updated t) r) = now.
Proof.
  intros H Ht Hc Hf. split; [|repeat split]. unfold pushChanges in H.
  destruct (transaction now input db) as [db2|e] eqn:E; inversion H; subst db2; clear H.
  apply transaction_ok in E. destruct E as [E _]. apply update_all_map in E. subst db'.
  rewrite findUnique_map by (intros r0; apply apply_seq_id).
  rewrite findUnique_app, Hf. simpl. f_equal.
  pose proof (findUnique_Some _ _ _ Hf) as [Hrin Hrid].
  assert (Hstored : is_stored db t = true).
  { apply is_stored_In. rewrite <- Hrid. now apply in_map. }
  pose proof (apply_seq_summary now (patches now input db) None r) as Hs.
  simpl in Hs. rewrite Hs by discriminate. clear Hs. rewrite Hrid.
  change (zTask.id t) with (TaskPatch.id (patch_of_updated t)).
  rewrite summary_unique; [reflexivity| |].
  - rewrite patches_eq. apply in_app_or in Ht. apply in_or_app.
    destruct Ht as [Ht | Ht]; [left | right; now apply in_map].
    change (patch_of_updated t) with (patch_of_created t). apply in_map.
    apply filter_In. now split.
  - simpl TaskPatch.id.
    assert (Hin : In (zTask.id t) (map TaskPatch.id (patches now input db))).
    { apply patches_ids. unfold mentions in *.
      apply in_app_or in Ht. destruct Ht as [Ht | Ht].
      - left. split; [now apply is_stored_In | now apply in_map].
      - right. now apply in_map. }
    apply (count_occ_In string_dec) in Hin.
    assert (Hle : (count_occ string_dec (map TaskPatch.id (patches now input db))
                     (zTask.id t)
                   <= count_occ string_dec (mentions input) (zTask.id t))%nat).
    { rewrite patches_eq. unfold mentions.
      rewrite !map_app, !count_occ_app, !map_map. simpl.
      pose proof (count_occ_filter_le zTask.id (is_stored db)
                    (or_empty (created (tasks (push_changes input)))) (zTask.id t)).
      change (fun x : zTask.t => zTask.id x) with zTask.id. lia. }
    lia.
Qed.

(** ** A create of a stored id *)

Lemma apply_seq_createdAt now ps : forall r,
  TaskRow.createdAt (apply_seq now ps r) = TaskRow.createdAt r.
Proof.
  induction ps as [|p ps IH]; intros r; [reflexivity|].
  rewrite apply_seq_cons, IH. unfold patch_row.
  now destruct (has_id (TaskPatch.id p) r).
Qed.

(** An id that the payload names once is named once by the patches. *)
Lemma patches_count_once now input db i :
  In i (map TaskPatch.id (patches now input db)) ->
  count_occ string_dec (mentions input) i = 1%nat ->
  count_occ string_dec (map TaskPatch.id (patches now input db)) i = 1%nat.
Proof.
  intros Hin Hc. apply (count_occ_In string_dec) in Hin.
  assert (Hle : (count_occ string_dec (map TaskPatch.id (patches now input db)) i
                 <= count_occ string_dec (mentions input) i)%nat).
  { rewrite patches_eq. unfold mentions.
    rewrite !map_app, !count_occ_app, !map_map. simpl.
    pose proof (count_occ_filter_le zTask.id (is_stored db)
                  (or_empty (created (tasks (push_changes input)))) i).
    change (fun x : zTask.t => zTask.id x) with zTask.id. lia. }
  lia.
Qed.

(** C2. Pushing a created record whose id is already stored. The record
    is staged as an update patch and not as an insert; the push does not
    fail on a duplicate key for that id; afterwards the table has exactly
    one row with that id; and when every id of the payload is stored (a
    retried push), the push succeeds. When the push succeeds, the row
    stored under the id is still found under it, with the creation stamps
    it had and the clock value of the push as update stamp; when the
    payload names the id once, that row is the stored row merged with the
    record. Pushed alone, the record turns the table into the one where
    the merge has replaced the stored row. *)
Theorem C2_create_of_stored_id_becomes_update now input db c :
  wf_store db ->
  In c (or_empty (created (tasks (push_changes input)))) ->
  In (zTask.id c) (ids db) ->
  In (patch_of_created c) (patches now input db)
  /\ ~ In (zTask.id c) (map TaskCreate.id (inserts now input db))
  /\ fst (pushChanges now input db)
       <> Err (ExtendedTRPCError (UniqueConstraintFailed (zTask.id c)))
  /\ count_id (zTask.id c) (snd (pushChanges now input db)) = 1%nat
  /\ ((forall t, In t (or_empty (created (tasks (push_changes input)))
                       ++ or_empty (updated (tasks (push_changes input)))) ->
                 In (zTask.id t) (ids db)) ->
      fst (pushChanges now input db) = Ok tt)
  /\ (forall r, findUnique (zTask.id c) db = Some r ->
      fst (pushChanges now input db) = Ok tt ->
      exists r',
        findUnique (zTask.id c) (snd (pushChanges now input db)) = Some r'
        /\ TaskRow.serverCreatedAt r' = TaskRow.serverCreatedAt r
        /\ TaskRow.createdAt r' = TaskRow.createdAt r
        /\ TaskRow.serverUpdatedAt r' = now
        /\ (count_occ string_dec (mentions input) (zTask.id c) = 1%nat ->
            r' = apply_patch now (patch_of_created c) r /\ merged c r r'))
  /\ (forall r, findUnique (zTask.id c) db = Some r ->
      pushChanges now (push_of_created [c] None None None) db
        = (Ok tt, map (patch_row now (patch_of_created c)) db)
      /\ findUnique (zTask.id c) (map (patch_row now (patch_of_created c)) db)
         = Some (apply_patch now (patch_of_created c) r)
      /\ merged c r (apply_patch now (patch_of_created c) r)).
Proof.
  intros Hwf Hc Hid.
  assert (Hst : is_stored db c = true).
  { unfold is_stored. apply findUnique_In in Hid. destruct Hid as [r Hr]. now rewrite Hr. }
  assert (Hfresh : ~ In (zTask.id c) (map TaskCreate.id (inserts now input db))).
  { intros H. apply in_map_iff in H. destruct H as [c' [Hc' Hin]].
    apply inserts_fresh in Hin. rewrite Hc' in Hin. contradiction. }
  assert (Hpc : In (patch_of_created c) (patches now input db)).
  { rewrite patches_eq. apply in_or_app. left. apply in_map.
    apply filter_In. now split. }
  split; [exact Hpc|]. split; [exact Hfresh|]. split; [|split; [|split; [|split]]].
  - unfold pushChanges. rewrite transaction_eq.
    destruct (createMany (inserts now input db) db) as [db1|e] eqn:E; simpl.
    + destruct (update_all now (patches now input db) db1) as [db2|e] eqn:E2; simpl;
        [discriminate|].
      apply update_all_err in E2. destruct E2 as [p [_ He]]. subst e. discriminate.
    + apply createMany_err in E. destruct E as [c' [Hin He]]. subst e.
      intros H. inversion H as [Heq]. apply Hfresh. rewrite <- Heq.
      now apply in_map.
  - apply wf_store_count; [now apply pushChanges_wf|].
    unfold pushChanges. destruct (transaction now input db) as [db'|e] eqn:E; simpl;
      [|exact Hid].
    apply transaction_ok in E. destruct E as [_ E]. rewrite E.
    apply in_or_app. now left.
  - intros Hall. unfold pushChanges. rewrite transaction_eq.
    assert (Hins : inserts now input db = []).
    { rewrite inserts_eq.
      rewrite filter_none; [reflexivity|].
      intros t Ht. apply negb_false_iff. unfold is_stored.
      destruct (findUnique_In (zTask.id t) db) as [r Hr];
        [apply Hall, in_or_app; now left | now rewrite Hr]. }
    rewrite Hins. simpl.
    destruct (update_all_total now (patches now input db) db) as [db' Hdb'].
    + intros p Hp. rewrite patches_eq in Hp. apply in_app_or in Hp.
      destruct Hp as [Hp | Hp]; apply in_map_iff in Hp; destruct Hp as [t [Ht Hin]];
        subst p; simpl.
      * apply filter_In in Hin. apply Hall, in_or_app. left. tauto.
      * apply Hall, in_or_app. now right.
    + now rewrite Hdb'.
  - intros r Hf Hok. unfold pushChanges in *.
    destruct (transaction now input db) as [db'|e] eqn:E; simpl in *; [|discriminate].
    apply transaction_ok in E. destruct E as [E _]. apply update_all_map in E. subst db'.
    exists (apply_seq now (patches now input db) r).
    pose proof (findUnique_Some _ _ _ Hf) as [_ Hrid].
    assert (Hin : In (TaskRow.id r) (map TaskPatch.id (patches now input db))).
    { rewrite Hrid. now apply (in_map TaskPatch.id) in Hpc. }
    destruct (apply_seq_stamps now (patches now input db) r) as [Hsc Hsu].
    split; [|split; [exact Hsc|split; [apply apply_seq_createdAt|split]]].
    + rewrite findUnique_map by (intros r0; apply apply_seq_id).
      now rewrite findUnique_app, Hf.
    + rewrite Hsu. now rewrite (proj2 (mem_In _ _) Hin).
    + intros Hone.
      assert (Heq : apply_seq now (patches now input db) r
                    = apply_patch now (patch_of_created c) r).
      { pose proof (apply_seq_summary now (patches now input db) None r) as Hs.
        simpl in Hs. rewrite Hs by discriminate. rewrite Hrid.
        change (zTask.id c) with (TaskPatch.id (patch_of_created c)).
        rewrite summary_unique; [reflexivity | exact Hpc |].
        apply patches_count_once; [|exact Hone].
        now apply (in_map TaskPatch.id) in Hpc. }
      rewrite Heq. split; [reflexivity | repeat split].
  - intros r Hf.
    assert (Hup : update now (patch_of_created c) db
                  = Ok (map (patch_row now (patch_of_created c)) db)).
    { unfold update. simpl. now rewrite Hf. }
    split; [|split; [|repeat split]].
    + unfold pushChanges. rewrite transaction_eq, inserts_eq, patches_eq. simpl.
      rewrite Hst. simpl. now rewrite Hup.
    + rewrite findUnique_patch_row. simpl TaskPatch.id. rewrite Hf. simpl. f_equal.
      apply patch_row_same. apply findUnique_Some in Hf. now destruct Hf.
Qed.

End Schema.

(** ** Properties of pullChanges *)

Lemma to_wire_id r : zTask.id (to_wire r) = TaskRow.id r.
Proof. reflexivity. Qed.

Lemma JSON_parse_empty : JS.JSON_parse EmptyString = None.
Proof. reflexivity. Qed.

Lemma findMany_all db : findMany (fun _ => true) db = db.
Proof. unfold findMany. now apply filter_all. Qed.

(** In a table with a primary key, a reported record is the image of the
    one row with its id. *)
Lemma in_to_wire_findMany db cond R :
  wf_store db -> In R db ->
  In (to_wire R) (map to_wire (findMany cond db)) -> cond R = true.
Proof.
  intros Hwf HR H. apply in_map_iff in H. destruct H as [R' [Heq Hin]].
  apply filter_In in Hin. destruct Hin as [Hin Hc].
  assert (R' = R); [|now subst].
  apply (wf_store_inj db); auto.
  now rewrite <- !to_wire_id, Heq.
Qed.

Lemma migrate_updated_active input us db :
  override_active input = true -> migrate_updated input us db = Ok db.
Proof.
  unfold override_active, migrate_updated. intros H.
  apply andb_true_iff in H. destruct H as [H1 H2]. rewrite H1.
  destruct (migration input) as [text|]; [|discriminate].
  destruct (JS.JSON_parse text) as [m|]; [|discriminate].
  destruct (JS.from_lt_two m) as [below|e]; [|discriminate].
  subst below. simpl. now rewrite findMany_all.
Qed.

Lemma migrate_updated_inactive input us db res :
  override_active input = false ->
  migrate_updated input us db = Ok res -> res = us.
Proof.
  unfold override_active, migrate_updated. intros H.
  destruct (JS.ge_two (schemaVersion input) &&
            JS.truthy_nullable_string (migration input)); simpl in H.
  - destruct (migration input) as [text|]; [|intros E; now inversion E].
    destruct (JS.JSON_parse text) as [m|]; [|discriminate].
    destruct (JS.from_lt_two m) as [below|e]; [|discriminate].
    subst below. simpl. intros E; now inversion E.
  - intros E; now inversion E.
Qed.

(** C1 (amended). In a pull response a stored record is in at most one
    of the created and updated sets when the migration override is not
    active, whatever the watermark; when the override is active, the
    record is in both sets exactly when its creation stamp is above the
    watermark. *)
Theorem C1_partition now input db out R :
  wf_store db ->
  pullChanges now input db = Ok out ->
  In R db ->
  (override_active input = false ->
     ~ (In (to_wire R) (created_of out) /\ In (to_wire R) (updated_of out)))
  /\ (override_active input = true ->
       (In (to_wire R) (created_of out) /\ In (to_wire R) (updated_of out)
        <-> safeLastPulledAt (lastPulledAt input) < TaskRow.serverCreatedAt R)).
Proof.
  intros Hwf H HR. unfold pullChanges in H.
  destruct (migrate_updated input _ db) as [us|e] eqn:E; simpl in H; [|discriminate].
  inversion H; subst out; clear H. unfold created_of, updated_of. simpl. split.
  - intros Hov [Hc Hu].
    apply migrate_updated_inactive in E; [|exact Hov]. subst us.
    apply in_to_wire_findMany in Hc; auto. apply in_to_wire_findMany in Hu; auto.
    unfold created_since in Hc. unfold updated_since in Hu.
    apply andb_true_iff in Hu. destruct Hu as [_ Hu].
    apply Z.ltb_lt in Hc. apply Z.leb_le in Hu. lia.
  - intros Hov. rewrite migrate_updated_active in E by exact Hov.
    inversion E; subst us; clear E. split.
    + intros [Hc _]. apply in_to_wire_findMany in Hc; auto.
      now apply Z.ltb_lt.
    + intros Hlt. split.
      * apply in_map. apply filter_In. split; [exact HR|]. now apply Z.ltb_lt.
      * now apply in_map.
Qed.

(** C3. With a schema version of at least 2 and a migration text that
    parses to a value whose [from] is below 2, the pull reports every row
    of the table as updated, whatever the watermark, and as created the
    rows whose creation stamp is above the watermark. *)
Theorem C3_migration_full_resync now input db text m :
  JS.ge_two (schemaVersion input) = true ->
  migration input = Some text ->
  JS.JSON_parse text = Some m ->
  JS.from_lt_two m = Ok true ->
  pullChanges now input db =
  Ok (mkPullOutput
        (mkChanges
           (mkTaskChanges
              (Some (map to_wire
                 (findMany (created_since (safeLastPulledAt (lastPulledAt input))) db)))
              (Some (map to_wire db))
              (Some [])))
        now).
Proof.
  intros Hsv Hmig Hparse Hfrom. unfold pullChanges.
  rewrite migrate_updated_active; [reflexivity|].
  unfold override_active. rewrite Hsv, Hmig, Hparse, Hfrom.
  destruct text; [discriminate | reflexivity].
Qed.

Lemma pullChanges_watermark now lp lp' sv mig db :
  safeLastPulledAt lp = safeLastPulledAt lp' ->
  pullChanges now (mkPullInput lp sv mig) db =
  pullChanges now (mkPullInput lp' sv mig) db.
Proof. intros H. unfold pullChanges. simpl. now rewrite H. Qed.

(** C8. A null watermark is replaced by 1 and a non-zero watermark is
    used as it is: a pull with null answers as a pull with 1; a pull with
    a non-zero watermark w reports as created the rows whose creation
    stamp is above w and, the override apart, as updated the rows whose
    update stamp is above w and whose creation stamp is not; and a pull
    with null reports every row whose update stamp is above 1. *)
Theorem C8_watermark_normalisation now sv mig db :
  safeLastPulledAt None = 1
  /\ (forall w, w <> 0 -> safeLastPulledAt (Some (JS.Num w)) = w)
  /\ pullChanges now (mkPullInput None sv mig) db =
     pullChanges now (mkPullInput (Some (JS.Num 1)) sv mig) db
  /\ (forall w out, w <> 0 ->
        pullChanges now (mkPullInput (Some (JS.Num w)) sv mig) db = Ok out ->
        created (tasks (changes out)) =
          Some (map to_wire
                  (findMany (fun r => w <? TaskRow.serverCreatedAt r) db))
        /\ (override_active (mkPullInput (Some (JS.Num w)) sv mig) = false ->
            updated (tasks (changes out)) =
              Some (map to_wire
                      (findMany (fun r => (w <? TaskRow.serverUpdatedAt r)
                                          && (TaskRow.serverCreatedAt r <=? w)) db))))
  /\ (forall out r,
        pullChanges now (mkPullInput None sv mig) db = Ok out ->
        In r db -> 1 < TaskRow.serverUpdatedAt r ->
        In (to_wire r) (created_of out) \/ In (to_wire r) (updated_of out)).
Proof.
  split; [reflexivity|]. split; [exact safeLastPulledAt_nonzero|].
  split; [now apply pullChanges_watermark|]. split.
  - intros w out Hw H. unfold pullChanges in H. simpl lastPulledAt in H.
    rewrite (safeLastPulledAt_nonzero w Hw) in H.
    destruct (migrate_updated _ _ db) as [us|e] eqn:E; simpl in H; [|discriminate].
    inversion H; subst out; clear H. simpl. split; [reflexivity|].
    intros Hov. apply migrate_updated_inactive in E; [|exact Hov]. now subst us.
  - intros out r H Hin Hr. unfold pullChanges in H. simpl lastPulledAt in H.
    rewrite safeLastPulledAt_null in H.
    destruct (migrate_updated _ _ db) as [us|e] eqn:E; simpl in H; [|discriminate].
    inversion H; subst out; clear H. unfold created_of, updated_of. simpl.
    destruct (override_active (mkPullInput None sv mig)) eqn:Hov.
    + rewrite migrate_updated_active in E by exact Hov. inversion E; subst us.
      right. now apply in_map.
    + apply migrate_updated_inactive in E; [|exact Hov]. subst us.
      destruct (1 <? TaskRow.serverCreatedAt r) eqn:Hc.
      * left. apply in_map. apply filter_In. now split.
      * right. apply in_map. apply filter_In. split; [exact Hin|].
        unfold updated_since. apply andb_true_iff. split.
        -- now apply Z.ltb_lt.
        -- apply Z.ltb_ge in Hc. now apply Z.leb_le.
Qed.

(** C9. The watermark is tested for truthiness: a falsy number, 0 or
    NaN, is replaced by 1 as null is, and a pull with it answers as a pull
    with null. *)
Theorem C9_falsy_watermark now n sv mig db :
  JS.truthy_number n = false ->
  safeLastPulledAt (Some n) = 1
  /\ pullChanges now (mkPullInput (Some n) sv mig) db =
     pullChanges now (mkPullInput None sv mig) db
  /\ JS.truthy_number (JS.Num 0) = false
  /\ JS.truthy_number JS.NaN = false.
Proof.
  intros H.
  assert (Hs : safeLastPulledAt (Some n) = 1).
  { unfold safeLastPulledAt. simpl. now rewrite H. }
  split; [exact Hs|]. split; [now apply pullChanges_watermark|]. now split.
Qed.

(** C10 (amended). With a schema version of at least 2 and a migration
    text that is not JSON: when the text is not empty, [JSON.parse] throws
    and the pull fails with that SyntaxError instead of answering; when
    the text is empty, it is not parsed and the pull answers. *)
Theorem C10_malformed_migration now input db text :
  JS.ge_two (schemaVersion input) = true ->
  migration input = Some text ->
  JS.JSON_parse text = None ->
  (text <> EmptyString -> pullChanges now input db = Err SyntaxError)
  /\ (text = EmptyString -> exists out, pullChanges now input db = Ok out).
Proof.
  intros Hsv Hmig Hparse. unfold pullChanges, migrate_updated.
  rewrite Hsv, Hmig. split.
  - intros Hne. destruct text; [contradiction|]. simpl. now rewrite Hparse.
  - intros He. subst text. simpl. eauto.
Qed.

(** ** Further properties of pullChanges *)

Lemma pullChanges_ok now input db out :
  pullChanges now input db = Ok out ->
  exists us,
    migrate_updated input
      (findMany (updated_since (safeLastPulledAt (lastPulledAt input))) db) db = Ok us
    /\ out = mkPullOutput
               (mkChanges
                  (mkTaskChanges
                     (Some (map to_wire
                        (findMany (created_since (safeLastPulledAt (lastPulledAt input))) db)))
                     (Some (map to_wire us))
                     (Some [])))
               now.
Proof.
  unfold pullChanges. intros H.
  destruct (migrate_updated input _ db) as [us|e]; simpl in H; [|discriminate].
  exists us. split; [reflexivity | now inversion H].
Qed.

Lemma in_to_wire_findMany_iff db cond R :
  wf_store db -> In R db ->
  (In (to_wire R) (map to_wire (findMany cond db)) <-> cond R = true).
Proof.
  intros Hwf HR. split; [now apply in_to_wire_findMany|].
  intros Hc. apply in_map. apply filter_In. now split.
Qed.

(** X9. Without the migration override, a stored record is reported as
    created exactly when its creation stamp is above the watermark, and
    as updated exactly when its creation stamp is not above the watermark
    and its update stamp is. *)
Theorem pull_reports_iff now input db out R :
  wf_store db ->
  override_active input = false ->
  pullChanges now input db = Ok out ->
  In R db ->
  (In (to_wire R) (created_of out)
     <-> safeLastPulledAt (lastPulledAt input) < TaskRow.serverCreatedAt R)
  /\ (In (to_wire R) (updated_of out)
     <-> TaskRow.serverCreatedAt R <= safeLastPulledAt (lastPulledAt input)
         /\ safeLastPulledAt (lastPulledAt input) < TaskRow.serverUpdatedAt R).
Proof.
  intros Hwf Hov H HR. apply pullChanges_ok in H. destruct H as [us [Hus Hout]].
  apply migrate_updated_inactive in Hus; [|exact Hov]. subst us out.
  unfold created_of, updated_of. simpl.
  rewrite !in_to_wire_findMany_iff by assumption.
  unfold created_since, updated_since. rewrite andb_true_iff, !Z.ltb_lt, Z.leb_le.
  tauto.
Qed.

Lemma from_lt_two_err m e :
  JS.from_lt_two m = Err e ->
  e = TypeError
  /\ exists v, JS.get_from m = Some v /\ JS.ToPrimitive_throws v = true.
Proof.
  unfold JS.from_lt_two, JS.ToNumber.
  destruct (JS.get_from m) as [v|]; [|discriminate].
  destruct (JS.ToPrimitive_throws v) eqn:E; simpl; [|discriminate].
  intros H. inversion H. split; [reflexivity|]. now exists v.
Qed.

Lemma from_lt_two_throws m v :
  JS.get_from m = Some v -> JS.ToPrimitive_throws v = true ->
  JS.from_lt_two m = Err TypeError.
Proof.
  intros Hg Ht. unfold JS.from_lt_two, JS.ToNumber. now rewrite Hg, Ht.
Qed.

(** X10. The two throws of the handler itself. A pull fails with the
    SyntaxError of [JSON.parse] exactly when the schema version is at
    least 2 and the migration text is non-empty and not JSON. It fails
    with a TypeError exactly when the schema version is at least 2 and
    the migration text parses to an object whose [from] member has no
    primitive form: an object with a member named toString, or an array
    that holds one, directly or inside nested arrays. With a schema
    version below 2, or a null or empty migration text, the text is not
    parsed and the pull answers with the incremental result. A pull that
    answers reports its own clock value as the new watermark and no
    deletion. *)
Theorem pull_fails_iff now input db :
  (pullChanges now input db = Err SyntaxError <->
     JS.ge_two (schemaVersion input) = true
     /\ exists text, migration input = Some text
          /\ text <> EmptyString /\ JS.JSON_parse text = None)
  /\ (pullChanges now input db = Err TypeError <->
     JS.ge_two (schemaVersion input) = true
     /\ exists text m v, migration input = Some text
          /\ text <> EmptyString /\ JS.JSON_parse text = Some m
          /\ JS.get_from m = Some v /\ JS.ToPrimitive_throws v = true)
  /\ (JS.ge_two (schemaVersion input) = false
      \/ JS.truthy_nullable_string (migration input) = false ->
      pullChanges now input db =
      Ok (mkPullOutput
            (mkChanges
               (mkTaskChanges
                  (Some (map to_wire
                     (findMany (created_since (safeLastPulledAt (lastPulledAt input))) db)))
                  (Some (map to_wire
                     (findMany (updated_since (safeLastPulledAt (lastPulledAt input))) db)))
                  (Some [])))
            now))
  /\ (forall out, pullChanges now input db = Ok out ->
        timestamp out = now /\ deleted (tasks (changes out)) = Some []).
Proof.
  assert (Herr : forall e, pullChanges now input db = Err e ->
            JS.ge_two (schemaVersion input) = true
            /\ exists text, migration input = Some text /\ text <> EmptyString
                 /\ ((JS.JSON_parse text = None /\ e = SyntaxError)
                     \/ (exists m v, JS.JSON_parse text = Some m
                            /\ JS.get_from m = Some v
                            /\ JS.ToPrimitive_throws v = true /\ e = TypeError))).
  { unfold pullChanges, migrate_updated. intros e.
    destruct (JS.ge_two (schemaVersion input)); simpl; [|discriminate].
    destruct (migration input) as [text|]; simpl; [|discriminate].
    destruct text as [|c text]; simpl; [discriminate|].
    intros H. split; [reflexivity|]. exists (String c text).
    split; [reflexivity|]. split; [discriminate|].
    destruct (JS.JSON_parse (String c text)) as [m|] eqn:Hp.
    - right. destruct (JS.from_lt_two m) as [below|e'] eqn:Hf.
      + destruct below; discriminate.
      + simpl in H. inversion H; subst e'.
        apply from_lt_two_err in Hf. destruct Hf as [He [v [Hg Ht]]].
        exists m, v. auto.
    - left. simpl in H. inversion H. auto. }
  split; [split|split; [split|split]].
  - intros H. destruct (Herr _ H) as [Hsv [text [Hmig [Hne [[Hp _] | Hx]]]]].
    + split; [exact Hsv|]. exists text. auto.
    + destruct Hx as [m [v [_ [_ [_ He]]]]]. discriminate.
  - intros [Hsv [text [Hmig [Hne Hp]]]]. unfold pullChanges, migrate_updated.
    rewrite Hsv, Hmig. destruct text; [contradiction|]. simpl. now rewrite Hp.
  - intros H. destruct (Herr _ H) as [Hsv [text [Hmig [Hne [[_ He] | Hx]]]]].
    + discriminate.
    + destruct Hx as [m [v [Hp [Hg [Ht _]]]]].
      split; [exact Hsv|]. exists text, m, v. auto.
  - intros [Hsv [text [m [v [Hmig [Hne [Hp [Hg Ht]]]]]]]].
    unfold pullChanges, migrate_updated.
    rewrite Hsv, Hmig. destruct text; [contradiction|]. simpl.
    now rewrite Hp, (from_lt_two_throws m v Hg Ht).
  - intros H. unfold pullChanges, migrate_updated.
    destruct H as [H | H]; rewrite H; [reflexivity | now rewrite andb_false_r].
  - intros out H. apply pullChanges_ok in H. destruct H as [us [_ Hout]].
    now subst out.
Qed.

(** A pull whose watermark no stamp of the table exceeds has nothing to
    report. *)
Lemma pull_nothing_new now w sv db :
  (forall r, In r db ->
     TaskRow.serverCreatedAt r <= w /\ TaskRow.serverUpdatedAt r <= w) ->
  w <> 0 ->
  pullChanges now (mkPullInput (Some (JS.Num w)) sv None) db = Ok (empty_response now).
Proof.
  intros Hdb Hw. unfold pullChanges. simpl lastPulledAt.
  rewrite migrate_updated_no_migration, (safeLastPulledAt_nonzero w Hw). simpl.
  unfold findMany, empty_response. rewrite !filter_none; [reflexivity| |].
  - intros r Hr. destruct (Hdb r Hr). unfold updated_since.
    apply andb_false_iff. left. apply Z.ltb_ge. lia.
  - intros r Hr. destruct (Hdb r Hr). unfold created_since. apply Z.ltb_ge. lia.
Qed.

Lemma NoDup_ids_findMany cond db : wf_store db -> NoDup (ids (findMany cond db)).
Proof.
  unfold wf_store, ids, findMany. induction db as [|r db IH]; simpl; intros H.
  - constructor.
  - inversion H as [|? ? Hr Hnd]; subst. destruct (cond r); simpl.
    + constructor; [|now apply IH]. intros Hin. apply Hr.
      apply in_map_iff in Hin. destruct Hin as [x [Hx Hin]].
      apply filter_In in Hin. rewrite <- Hx. apply in_map. tauto.
    + now apply IH.
Qed.

Lemma wire_ids l : map zTask.id (map to_wire l) = ids l.
Proof. unfold ids. rewrite map_map. reflexivity. Qed.

Section PushThenPull.

Variable default_isUrgent : option bool.
Variable default_comment : option string.

(** X11. The watermark test is strict. Let a pull run at clock value [T]
    on a table whose stamps do not exceed [T], and let a push then run at
    a clock value of at most [T] (the same millisecond). The next pull,
    with the watermark the first pull handed out and no migration
    descriptor, reports nothing: what that push wrote is not seen. With
    an empty push this is the case of no intervening write. *)
Theorem pull_misses_writes_at_watermark T now now' lp1 sv1 mig1 out1 input sv db :
  (forall r, In r db ->
     TaskRow.serverCreatedAt r <= T /\ TaskRow.serverUpdatedAt r <= T) ->
  T <> 0 ->
  now <= T ->
  pullChanges T (mkPullInput lp1 sv1 mig1) db = Ok out1 ->
  pullChanges now' (mkPullInput (Some (JS.Num (timestamp out1))) sv None)
    (snd (pushChanges default_isUrgent default_comment now input db))
  = Ok (empty_response now').
Proof.
  intros Hdb HT Hnow H1. apply pullChanges_ok in H1. destruct H1 as [us [_ Hout]].
  subst out1. simpl timestamp. apply pull_nothing_new; [|exact HT].
  now apply (push_stamps_at_most default_isUrgent default_comment T now input db).
Qed.

(** X12. A pull that follows a push reports the push. Let no stamp of the
    table exceed the watermark [w], and let a push succeed at a clock
    value above [w]. The pull with watermark [w] and no migration
    descriptor then reports as created exactly the rows under ids that
    were not stored before the push, and as updated exactly the rows
    under ids that were stored and that the payload names. *)
Theorem pull_after_push_reports_the_push w now now' input sv db db' :
  (forall r, In r db ->
     TaskRow.serverCreatedAt r <= w /\ TaskRow.serverUpdatedAt r <= w) ->
  w <> 0 ->
  w < now ->
  pushChanges default_isUrgent default_comment now input db = (Ok tt, db') ->
  pullChanges now' (mkPullInput (Some (JS.Num w)) sv None) db' =
  Ok (mkPullOutput
        (mkChanges
           (mkTaskChanges
              (Some (map to_wire
                 (filter (fun r => negb (mem (TaskRow.id r) (ids db))) db')))
              (Some (map to_wire
                 (filter (fun r => mem (TaskRow.id r) (ids db)
                                   && mem (TaskRow.id r) (mentions input)) db')))
              (Some [])))
        now').
Proof.
  intros Hdb Hw Hnow Hpush. unfold pullChanges. simpl lastPulledAt.
  rewrite migrate_updated_no_migration, (safeLastPulledAt_nonzero w Hw). simpl.
  unfold findMany. do 4 f_equal.
  - f_equal. f_equal. apply filter_ext_in. intros r' Hr'. unfold created_since.
    destruct (push_rows_stamps _ _ _ _ _ _ r' Hpush Hr')
      as [[Hi [r [Hr [_ [Hc _]]]]] | [Hi [Hc _]]].
    + apply mem_In in Hi. rewrite Hi, Hc. destruct (Hdb r Hr). apply Z.ltb_ge. lia.
    + apply mem_not_In in Hi. rewrite Hi, Hc. now apply Z.ltb_lt.
  - f_equal. f_equal. apply filter_ext_in. intros r' Hr'. unfold updated_since.
    destruct (push_rows_stamps _ _ _ _ _ _ r' Hpush Hr')
      as [[Hi [r [Hr [_ [Hc Hu]]]]] | [Hi [Hc _]]].
    + apply mem_In in Hi. rewrite Hi, Hc, Hu. destruct (Hdb r Hr) as [H1 H2].
      destruct (mem (TaskRow.id r') (mentions input)); simpl.
      * apply andb_true_iff. split; [now apply Z.ltb_lt | now apply Z.leb_le].
      * apply andb_false_iff. left. apply Z.ltb_ge. lia.
    + apply mem_not_In in Hi. rewrite Hi, Hc. simpl.
      apply andb_false_iff. right. apply Z.leb_gt. exact Hnow.
Qed.

(** X13. The primary key carries over to the answers: from a table
    without duplicate ids, whatever is pushed, the created list of a
    later pull names no id twice, and neither does its updated list, the
    override included. *)
Theorem pull_lists_have_distinct_ids now now' input pull_input db out :
  wf_store db ->
  pullChanges now' pull_input
    (snd (pushChanges default_isUrgent default_comment now input db)) = Ok out ->
  NoDup (map zTask.id (created_of out)) /\ NoDup (map zTask.id (updated_of out)).
Proof.
  intros Hwf H.
  pose proof (pushChanges_wf default_isUrgent default_comment now input db Hwf) as Hwf'.
  set (db' := snd (pushChanges default_isUrgent default_comment now input db)) in *.
  apply pullChanges_ok in H. destruct H as [us [Hus Hout]]. subst out.
  unfold created_of, updated_of. simpl. rewrite !wire_ids. split.
  - now apply NoDup_ids_findMany.
  - destruct (override_active pull_input) eqn:Hov.
    + rewrite migrate_updated_active in Hus by exact Hov. inversion Hus. exact Hwf'.
    + apply migrate_updated_inactive in Hus; [|exact Hov]. subst us.
      now apply NoDup_ids_findMany.
Qed.

End PushThenPull.

(** ** Integer migration descriptors *)

Lemma code_units_app s t :
  JS.code_units (String.append s t) = JS.code_units s ++ JS.code_units t.
Proof. induction s as [|c s IH]; simpl; [reflexivity | now rewrite IH]. Qed.

Lemma small_digit d : (d < 10)%N ->
  d = 0%N \/ d = 1%N \/ d = 2%N \/ d = 3%N \/ d = 4%N \/ d = 5%N \/ d = 6%N
  \/ d = 7%N \/ d = 8%N \/ d = 9%N.
Proof.
  intros H. destruct d as [|p]; [now left|].
  do 4 (try destruct p as [p|p|]); try (exfalso; lia); auto 12.
Qed.

Lemma code_units_literal ds :
  Forall (fun d => (d < 10)%N) ds ->
  JS.code_units (literal ds) = map (N.add 48) ds.
Proof.
  induction 1 as [|d ds Hd _ IH]; [reflexivity|].
  cbn [literal JS.code_units map]. rewrite IH. f_equal.
  unfold digit_char. apply N_ascii_embedding. cbv beta in Hd. lia.
Qed.

Lemma lex_from_app st a : forall b,
  JS.lex_from st (a ++ b) =
  match lex_run st a with
  | None => None
  | Some (st', ts) =>
      match JS.lex_from st' b with
      | None => None
      | Some ts' => Some (ts ++ ts')
      end
  end.
Proof.
  revert st. induction a as [|c a IH]; intros st b; simpl.
  - now destruct (JS.lex_from st b).
  - destruct (JS.lex_step st c) as [[st' ts]|]; [|reflexivity].
    rewrite IH. destruct (lex_run st' a) as [[st'' ts']|]; [|reflexivity].
    destruct (JS.lex_from st'' b); [|reflexivity]. now rewrite app_assoc.
Qed.

(** Digits read inside the integer part of a number add to its value. *)
Lemma lex_run_digits negative ds : forall v,
  Forall (fun d => (d < 10)%N) ds ->
  lex_run (JS.LNumber JS.NInt (JS.mkNumAcc negative v 0 false 0)) (map (N.add 48) ds)
  = Some (JS.LNumber JS.NInt
            (JS.mkNumAcc negative (fold_left (fun v d => v * 10 + Z.of_N d) ds v)
               0 false 0), []).
Proof.
  induction ds as [|d ds IH]; intros v H; [reflexivity|].
  inversion H as [|? ? Hd Hds]; subst.
  assert (Hstep : JS.lex_step (JS.LNumber JS.NInt (JS.mkNumAcc negative v 0 false 0))
                    (48 + d)
                  = Some (JS.LNumber JS.NInt
                            (JS.mkNumAcc negative (v * 10 + Z.of_N d) 0 false 0), [])).
  { destruct (small_digit d Hd) as [E|[E|[E|[E|[E|[E|[E|[E|[E|E]]]]]]]]];
      subst d; reflexivity. }
  cbn [map lex_run]. rewrite Hstep, IH by exact Hds. reflexivity.
Qed.

(** The number token of an integer literal. *)
Lemma lex_integer (negative : bool) ds :
  canonical ds ->
  JS.lex_from JS.LStart
    (JS.code_units (String.append (if negative then "-"%string else EmptyString)
                      (String.append (literal ds) "}"%string)))
  = Some [JS.TNumber (JS.RDec (signed_value negative ds) 0); JS.TRBrace].
Proof.
  intros [Hds Hc]. destruct Hc as [Hz | [d [r [Hdr Hd]]]].
  - subst ds. destruct negative; reflexivity.
  - subst ds. inversion Hds as [|? ? Hd10 Hr]; subst.
    rewrite !code_units_app, code_units_literal by exact Hds.
    assert (Hfirst : forall t,
      JS.lex_from JS.LStart
        (JS.code_units (if negative then "-"%string else EmptyString)
         ++ (48 + d)%N :: t)
      = JS.lex_from (JS.LNumber JS.NInt (JS.mkNumAcc negative (Z.of_N d) 0 false 0)) t).
    { intros t.
      destruct (small_digit d Hd10) as [E|[E|[E|[E|[E|[E|[E|[E|[E|E]]]]]]]]];
        subst d; try contradiction; destruct negative; simpl;
        now destruct (JS.lex_from _ t). }
    simpl map. rewrite <- app_comm_cons, Hfirst, lex_from_app, lex_run_digits by exact Hr.
    unfold signed_value, literal_value. simpl fold_left.
    destruct negative; reflexivity.
Qed.

Lemma parse_from_descriptor negative ds :
  canonical ds ->
  JS.JSON_parse (from_descriptor negative ds)
  = Some (JS.VObject
            [(JS.code_units "from",
              JS.VNumber (JS.RDec (signed_value negative ds) 0))]).
Proof.
  intros Hc.
  assert (Hcu : JS.code_units (from_descriptor negative ds)
                = [123; 34; 102; 114; 111; 109; 34; 58]%N
                  ++ JS.code_units
                       (String.append (if negative then "-"%string else EmptyString)
                          (String.append (literal ds) "}"%string))).
  { unfold from_descriptor. rewrite code_units_app, code_units_app, code_units_app.
    reflexivity. }
  assert (Hrun : lex_run JS.LStart [123; 34; 102; 114; 111; 109; 34; 58]%N
                 = Some (JS.LStart,
                         [JS.TLBrace; JS.TString (JS.code_units "from"); JS.TColon]))
    by reflexivity.
  unfold JS.JSON_parse, JS.lex.
  rewrite Hcu, lex_from_app, Hrun, (lex_integer negative ds Hc). reflexivity.
Qed.

Lemma from_descriptor_not_empty negative ds :
  JS.truthy_nullable_string (Some (from_descriptor negative ds)) = true.
Proof. reflexivity. Qed.

(** X14. For every integer literal n of JSON, a pull with a schema
    version of at least 2 and the migration text [{"from":n}] answers,
    and reports every row of the table as updated when n is below 2 and
    only the incremental result otherwise. *)
Theorem pull_with_integer_descriptor now lp sv negative ds db :
  canonical ds ->
  JS.ge_two sv = true ->
  pullChanges now (mkPullInput lp sv (Some (from_descriptor negative ds))) db =
  Ok (mkPullOutput
        (mkChanges
           (mkTaskChanges
              (Some (map to_wire (findMany (created_since (safeLastPulledAt lp)) db)))
              (Some (map to_wire
                 (if signed_value negative ds <? 2 then db
                  else findMany (updated_since (safeLastPulledAt lp)) db)))
              (Some [])))
        now).
Proof.
  intros Hc Hsv. unfold pullChanges, migrate_updated. simpl lastPulledAt.
  simpl schemaVersion. simpl migration.
  rewrite Hsv, from_descriptor_not_empty, (parse_from_descriptor negative ds Hc).
  simpl andb. cbv iota.
  assert (Hlt : JS.from_lt_two
                  (JS.VObject [(JS.code_units "from",
                                JS.VNumber (JS.RDec (signed_value negative ds) 0))])
                = Ok (signed_value negative ds <? 2)).
  { unfold JS.from_lt_two. simpl. now rewrite Z.mul_1_r. }
  rewrite Hlt. simpl bind. destruct (signed_value negative ds <? 2); simpl.
  - now rewrite findMany_all.
  - reflexivity.
Qed.

(** ** JSON.parse and the comparison at sample texts *)

Example parse_migration_from_1 :
  JS.JSON_parse migration_from_1
  = Some (JS.VObject [(JS.code_units "from", JS.VNumber (JS.RDec 1 0))]).
Proof. reflexivity. Qed.

Example parse_unquoted_key_fails : JS.JSON_parse migration_unquoted = None.
Proof. reflexivity. Qed.

Example parse_trailing_comma_fails : JS.JSON_parse "[1,]" = None.
Proof. reflexivity. Qed.

Example parse_leading_zero_fails : JS.JSON_parse "01" = None.
Proof. reflexivity. Qed.

Example parse_scalar : JS.JSON_parse " 1.5e-3 " = Some (JS.VNumber (JS.RDec 15 (-4))).
Proof. reflexivity. Qed.

Example parse_nested :
  JS.JSON_parse "[null,[true,{}],-2]"
  = Some (JS.VArray [JS.VNull; JS.VArray [JS.VBool true; JS.VObject []];
                     JS.VNumber (JS.RDec (-2) 0)]).
Proof. reflexivity. Qed.

(** A later member of the same name wins. *)
Example from_last_member_wins :
  JS.from_lt_two
    (JS.VObject [(JS.code_units "from", JS.VNumber (JS.RDec 1 0));
                 (JS.code_units "from", JS.VNumber (JS.RDec 3 0))]) = Ok false.
Proof. reflexivity. Qed.

Example from_missing_is_not_below_two : JS.from_lt_two (JS.VObject []) = Ok false.
Proof. reflexivity. Qed.

Example from_of_null_is_not_below_two : JS.from_lt_two JS.VNull = Ok false.
Proof. reflexivity. Qed.

(** An object with a member named toString has no primitive form, alone
    or inside an array; a member named valueOf does no harm. *)
Example from_without_primitive_form_throws :
  JS.JSON_parse migration_from_object
    = Some (JS.VObject
              [(JS.code_units "from",
                JS.VObject [(JS.code_units "toString", JS.VNumber (JS.RDec 0 0))])])
  /\ JS.from_lt_two
       (JS.VObject
          [(JS.code_units "from",
            JS.VObject [(JS.code_units "toString", JS.VNumber (JS.RDec 0 0))])])
     = Err TypeError
  /\ JS.from_lt_two
       (JS.VObject
          [(JS.code_units "from",
            JS.VArray [JS.VNumber (JS.RDec 1 0);
                       JS.VArray [JS.VObject [(JS.code_units "toString", JS.VNull)]]])])
     = Err TypeError
  /\ JS.from_lt_two
       (JS.VObject
          [(JS.code_units "from",
            JS.VObject [(JS.code_units "valueOf", JS.VNumber (JS.RDec 0 0))])])
     = Ok false.
Proof. repeat split. Qed.

(** 1.9999999999999999 is the double 2; 1.9999999999999998 is below it. *)
Example lt_two_rounds_to_double :
  JS.lt_two (JS.RDec 19999999999999999 (-16)) = false
  /\ JS.lt_two (JS.RDec 19999999999999998 (-16)) = true.
Proof. split; reflexivity. Qed.

Example number_of_string :
  JS.StringToNumber (JS.code_units " 0x1 ") = JS.RDec 1 0
  /\ JS.StringToNumber (JS.code_units "-1.5e1") = JS.RDec (-15) 0
  /\ JS.StringToNumber (JS.code_units "1,2") = JS.RNaN
  /\ JS.StringToNumber (JS.code_units "-Infinity") = JS.RInfinity true
  /\ JS.StringToNumber [] = JS.RDec 0 0.
Proof. repeat split. Qed.

(** ** The claims at sample inputs *)

Lemma sample_db_wf : wf_store sample_db.
Proof.
  unfold wf_store. simpl. constructor.
  - intros [H | []]. discriminate.
  - constructor; [intros [] | constructor].
Defined.

(** C1 as stated fails under the override: t1, created after the
    watermark, is reported as created and as updated. *)
Lemma C1_counterexample :
  wf_store sample_db
  /\ In sample_row sample_db
  /\ exists out,
       pullChanges 1700000001000 resync_pull sample_db = Ok out
       /\ In (to_wire sample_row) (created_of out)
       /\ In (to_wire sample_row) (updated_of out).
Proof.
  split; [exact sample_db_wf|]. split; [right; now left|].
  eexists. split; [vm_compute; reflexivity|].
  split; [now left | right; now left].
Qed.

Lemma C1_witness :
  wf_store sample_db
  /\ override_active plain_pull = false
  /\ In sample_row sample_db
  /\ exists out,
       pullChanges 1700000001000 plain_pull sample_db = Ok out
       /\ ~ (In (to_wire sample_row) (created_of out)
             /\ In (to_wire sample_row) (updated_of out)).
Proof.
  assert (Hin : In sample_row sample_db) by (right; now left).
  split; [exact sample_db_wf|]. split; [reflexivity|]. split; [exact Hin|].
  eexists. split; [reflexivity|].
  exact (proj1 (C1_partition 1700000001000 plain_pull sample_db _ sample_row
                  sample_db_wf eq_refl Hin) eq_refl).
Defined.

Lemma C3_witness :
  JS.ge_two (schemaVersion resync_pull) = true
  /\ migration resync_pull = Some migration_from_1
  /\ (exists m, JS.JSON_parse migration_from_1 = Some m /\ JS.from_lt_two m = Ok true)
  /\ updated_of
       (mkPullOutput
          (mkChanges
             (mkTaskChanges (Some [to_wire sample_row])
                (Some [to_wire sample_row_0; to_wire sample_row]) (Some [])))
          1700000001000)
     = map to_wire sample_db
  /\ pullChanges 1700000001000 resync_pull sample_db =
     Ok (mkPullOutput
           (mkChanges
              (mkTaskChanges (Some [to_wire sample_row])
                 (Some [to_wire sample_row_0; to_wire sample_row]) (Some [])))
           1700000001000).
Proof.
  split; [reflexivity|]. split; [reflexivity|].
  split; [eexists; split; reflexivity|]. split; [reflexivity|].
  apply (C3_migration_full_resync 1700000001000 resync_pull sample_db migration_from_1
           (JS.VObject [(JS.code_units "from", JS.VNumber (JS.RDec 1 0))]));
    reflexivity.
Defined.

Lemma C8_witness :
  1700000000000 <> 0
  /\ safeLastPulledAt (Some (JS.Num 1700000000000)) = 1700000000000
  /\ (exists out,
        pullChanges 1700000001000 (mkPullInput None (JS.Num 1) None) sample_db = Ok out
        /\ 1 < TaskRow.serverUpdatedAt sample_row_0
        /\ (In (to_wire sample_row_0) (created_of out)
            \/ In (to_wire sample_row_0) (updated_of out))).
Proof.
  assert (Hw : 1700000000000 <> 0) by lia.
  split; [exact Hw|].
  split.
  - exact (proj1 (proj2 (C8_watermark_normalisation 0 JS.NaN None [])) _ Hw).
  - eexists. split; [reflexivity|]. split; [reflexivity|].
    apply (proj2 (proj2 (proj2 (proj2
             (C8_watermark_normalisation 1700000001000 (JS.Num 1) None sample_db))))).
    + reflexivity.
    + now left.
    + reflexivity.
Defined.

Lemma C9_witness :
  JS.truthy_number (JS.Num 0) = false
  /\ safeLastPulledAt (Some (JS.Num 0)) = 1
  /\ pullChanges 1700000001000 (mkPullInput (Some (JS.Num 0)) (JS.Num 1) None) sample_db =
     pullChanges 1700000001000 (mkPullInput None (JS.Num 1) None) sample_db.
Proof.
  split; [reflexivity|].
  destruct (C9_falsy_watermark 1700000001000 (JS.Num 0) (JS.Num 1) None sample_db
              eq_refl) as [H1 [H2 _]].
  split; [exact H1 | exact H2].
Defined.

(** C10 as stated fails at the empty string: it is not JSON, and the
    pull answers. *)
Lemma C10_counterexample :
  JS.ge_two (schemaVersion empty_migration_pull) = true
  /\ migration empty_migration_pull = Some EmptyString
  /\ JS.JSON_parse EmptyString = None
  /\ pullChanges 1700000001000 empty_migration_pull sample_db =
     Ok (mkPullOutput
           (mkChanges
              (mkTaskChanges (Some [to_wire sample_row_0; to_wire sample_row])
                 (Some []) (Some [])))
           1700000001000).
Proof. repeat split. Qed.

Lemma C10_witness :
  JS.ge_two (schemaVersion malformed_migration_pull) = true
  /\ migration malformed_migration_pull = Some migration_unquoted
  /\ JS.JSON_parse migration_unquoted = None
  /\ migration_unquoted <> EmptyString
  /\ pullChanges 1700000001000 malformed_migration_pull sample_db = Err SyntaxError.
Proof.
  assert (Hne : migration_unquoted <> EmptyString) by discriminate.
  split; [reflexivity|]. split; [reflexivity|]. split; [reflexivity|].
  split; [exact Hne|].
  exact (proj1 (C10_malformed_migration 1700000001000 malformed_migration_pull
                  sample_db migration_unquoted eq_refl eq_refl eq_refl) Hne).
Defined.

Lemma C2_witness :
  wf_store sample_db
  /\ In sample_task (or_empty (created (tasks (push_changes sample_push))))
  /\ In (zTask.id sample_task) (ids sample_db)
  /\ In (patch_of_created sample_task)
        (patches 1700000010000 sample_push sample_db)
  /\ ~ In (zTask.id sample_task)
          (map TaskCreate.id (inserts 1700000010000 sample_push sample_db))
  /\ count_id (zTask.id sample_task)
       (snd (pushChanges None None 1700000010000 sample_push sample_db)) = 1%nat
  /\ findUnique (zTask.id sample_task) sample_db = Some sample_row
  /\ fst (pushChanges None None 1700000010000 sample_push sample_db) = Ok tt
  /\ count_occ string_dec (mentions sample_push) (zTask.id sample_task) = 1%nat
  /\ findUnique (zTask.id sample_task)
       (snd (pushChanges None None 1700000010000 sample_push sample_db))
     = Some (apply_patch 1700000010000 (patch_of_created sample_task) sample_row)
  /\ pushChanges None None 1700000010000
       (push_of_created [sample_task] None None None) sample_db
     = (Ok tt, map (patch_row 1700000010000 (patch_of_created sample_task)) sample_db).
Proof.
  assert (H1 : In sample_task (or_empty (created (tasks (push_changes sample_push)))))
    by (now left).
  assert (H2 : In (zTask.id sample_task) (ids sample_db)) by (right; now left).
  split; [exact sample_db_wf|]. split; [exact H1|]. split; [exact H2|].
  destruct (C2_create_of_stored_id_becomes_update None None 1700000010000
              sample_push sample_db sample_task sample_db_wf H1 H2)
    as [Ha [Hb [_ [Hc [_ [Hd He]]]]]].
  split; [exact Ha|]. split; [exact Hb|]. split; [exact Hc|].
  split; [reflexivity|]. split; [reflexivity|]. split; [reflexivity|]. split.
  - destruct (Hd sample_row eq_refl eq_refl) as [r' [Hf [_ [_ [_ Hm]]]]].
    destruct (Hm eq_refl) as [Heq _]. now rewrite Heq in Hf.
  - exact (proj1 (He sample_row eq_refl)).
Defined.

Lemma C4_witness :
  findUnique (zTask.id sample_task) sample_db = Some sample_row
  /\ exists db' r',
       pushChanges None None 1700000010000 (push_of_updated [sample_task]) sample_db
         = (Ok tt, db')
       /\ findUnique (zTask.id sample_task) db' = Some r'
       /\ merged sample_task sample_row r'.
Proof.
  split; [reflexivity|].
  exact (proj1 (proj2 (C4_sparse_patch None None 1700000010000 sample_task
                         sample_row sample_db eq_refl))).
Defined.

Lemma C5_witness :
  NoDup (map zTask.id [sample_task; sample_task_2])
  /\ or_empty (Some (@nil zTask.t)) = []
  /\ 1 < 1700000010000
  /\ exists db',
       pushChanges None None 1700000010000
         (push_of_created [sample_task; sample_task_2] (Some []) (Some []) None) []
         = (Ok tt, db')
       /\ List.length db' = 2%nat
       /\ forall w, w = Some (JS.Num 1) \/ w = None ->
          pullChanges 1700000020000 (mkPullInput w (JS.Num 1) None) db' =
          Ok (mkPullOutput
                (mkChanges
                   (mkTaskChanges
                      (Some (map (as_stored None None) [sample_task; sample_task_2]))
                      (Some []) (Some [])))
                1700000020000).
Proof.
  assert (Hnd : NoDup (map zTask.id [sample_task; sample_task_2])).
  { simpl. constructor.
    - intros [H | []]. discriminate.
    - constructor; [intros [] | constructor]. }
  assert (Hnow : 1 < 1700000010000) by lia.
  split; [exact Hnd|]. split; [reflexivity|]. split; [exact Hnow|].
  exact (C5_round_trip None None 1700000010000 1700000020000
           [sample_task; sample_task_2] (Some []) (Some []) None (JS.Num 1)
           Hnd eq_refl Hnow).
Defined.


Lemma C7_witness :
  exists res db',
    pushChanges None None 1700000010000 sample_push sample_db = (res, db')
    /\ res = Ok tt
    /\ (forall p, In p (patches 1700000010000 sample_push sample_db) ->
          exists r', findUnique (TaskPatch.id p) db' = Some r'
            /\ TaskRow.serverUpdatedAt r' = 1700000010000)
    /\ (forall i r, findUnique i sample_db = Some r ->
          exists r', findUnique i db' = Some r'
            /\ TaskRow.serverCreatedAt r' = TaskRow.serverCreatedAt r).
Proof.
  eexists. eexists. split; [reflexivity|]. split; [reflexivity|].
  destruct (C7_update_stamps None None 1700000010000 sample_push sample_db
              _ _ eq_refl) as [_ [Ha Hb]].
  split; [exact (Ha eq_refl) | exact Hb].
Defined.

(** ** The further properties at sample inputs *)

Lemma sample_db_stamps :
  forall r, In r sample_db ->
    TaskRow.serverCreatedAt r <= 1700000001000
    /\ TaskRow.serverUpdatedAt r <= 1700000001000.
Proof. intros r [H | [H | []]]; subst r; simpl; lia. Defined.

Lemma X1_witness :
  fst (pushChanges None None 1700000010000 sample_push sample_db) = Ok tt
  /\ NoDup (fresh_ids sample_push sample_db)
  /\ snd (pushChanges None None 1700000010000 sample_push sample_db)
     = map (apply_seq 1700000010000 (patches 1700000010000 sample_push sample_db))
         (sample_db
          ++ map (row_of_create None None)
               (inserts 1700000010000 sample_push sample_db)).
Proof.
  split; [reflexivity|].
  destruct (push_success_conditions None None 1700000010000 sample_push sample_db
              eq_refl) as [Hnd [_ Hdb]].
  split; [exact Hnd | exact Hdb].
Defined.

Lemma X3_witness :
  In "t0"%string (or_empty (deleted (tasks (push_changes sample_delete_push))))
  /\ In "t0"%string (ids sample_db)
  /\ In "t0"%string
       (ids (snd (pushChanges None None 1700000010000 sample_delete_push sample_db))).
Proof.
  assert (H1 : In "t0"%string
                 (or_empty (deleted (tasks (push_changes sample_delete_push)))))
    by (now left).
  assert (H2 : In "t0"%string (ids sample_db)) by (now left).
  split; [exact H1|]. split; [exact H2|].
  exact (proj2 (push_never_removes None None 1700000010000 sample_delete_push sample_db)
           _ H1 H2).
Defined.

Lemma X4_witness :
  ~ In "t0"%string (mentions sample_push)
  /\ findUnique "t0"%string
       (snd (pushChanges None None 1700000010000 sample_push sample_db))
     = Some sample_row_0.
Proof.
  assert (H : ~ In "t0"%string (mentions sample_push)).
  { simpl. intros [E | [E | []]]; discriminate. }
  split; [exact H|].
  rewrite (push_frame None None 1700000010000 sample_push sample_db "t0"%string H).
  reflexivity.
Defined.

Lemma X5_witness :
  TaskPatch.id (patch_of_updated sample_task)
    = TaskPatch.id (patch_of_updated sample_task_1b)
  /\ update_all 1700000010000
       ([] ++ patch_of_updated sample_task :: patch_of_updated sample_task_1b :: [])
       sample_db
     = update_all 1700000010000
         ([] ++ compose (patch_of_updated sample_task)
                  (patch_of_updated sample_task_1b) :: [])
         sample_db.
Proof.
  split; [reflexivity|].
  exact (updates_same_id_compose 1700000010000 [] (patch_of_updated sample_task)
           (patch_of_updated sample_task_1b) [] sample_db eq_refl).
Defined.

Lemma X6_witness :
  NoDup (map TaskPatch.id [patch_of_updated sample_task; patch_of_updated sample_task_0])
  /\ Permutation [patch_of_updated sample_task; patch_of_updated sample_task_0]
       [patch_of_updated sample_task_0; patch_of_updated sample_task]
  /\ exists db',
       update_all 1700000010000
         [patch_of_updated sample_task; patch_of_updated sample_task_0] sample_db
         = Ok db'
       /\ update_all 1700000010000
            [patch_of_updated sample_task_0; patch_of_updated sample_task] sample_db
          = Ok db'.
Proof.
  assert (Hnd : NoDup (map TaskPatch.id
                         [patch_of_updated sample_task; patch_of_updated sample_task_0])).
  { simpl. constructor.
    - intros [E | []]. discriminate.
    - constructor; [intros [] | constructor]. }
  split; [exact Hnd|]. split; [apply perm_swap|].
  eexists. split; [reflexivity|].
  apply (updates_distinct_ids_commute 1700000010000
           [patch_of_updated sample_task; patch_of_updated sample_task_0]
           [patch_of_updated sample_task_0; patch_of_updated sample_task]
           sample_db _ Hnd (perm_swap _ _ _) eq_refl).
Defined.

Lemma X7_witness :
  stamps_le 1700000001000 sample_db
  /\ 1700000001000 <= 1700000010000
  /\ stamps_le 1700000010000
       (snd (pushChanges None None 1700000010000 sample_push sample_db)).
Proof.
  assert (H : stamps_le 1700000001000 sample_db).
  { intros r [E | [E | []]]; subst r; simpl; lia. }
  assert (Hle : 1700000001000 <= 1700000010000) by lia.
  split; [exact H|]. split; [exact Hle|].
  exact (push_keeps_stamp_order None None 1700000001000 1700000010000 sample_push
           sample_db H Hle).
Defined.

Lemma X8_witness :
  exists db1,
    pushChanges None None 1700000010000 sample_push sample_db = (Ok tt, db1)
    /\ pushChanges None None 1700000020000 sample_push db1
       = (Ok tt, map (fun r => if mem (TaskRow.id r) (mentions sample_push)
                               then touch 1700000020000 r else r) db1).
Proof.
  eexists. split; [reflexivity|].
  exact (push_retry_is_idempotent None None 1700000010000 1700000020000 sample_push
           sample_db _ eq_refl).
Defined.

Lemma X9_witness :
  wf_store sample_db
  /\ override_active plain_pull = false
  /\ In sample_row_0 sample_db
  /\ exists out,
       pullChanges 1700000001000 plain_pull sample_db = Ok out
       /\ In (to_wire sample_row_0) (updated_of out)
       /\ ~ In (to_wire sample_row_0) (created_of out).
Proof.
  assert (Hin : In sample_row_0 sample_db) by (now left).
  split; [exact sample_db_wf|]. split; [reflexivity|]. split; [exact Hin|].
  eexists. split; [reflexivity|].
  destruct (pull_reports_iff 1700000001000 plain_pull sample_db _ sample_row_0
              sample_db_wf eq_refl eq_refl Hin) as [Hc Hu].
  change (safeLastPulledAt (lastPulledAt plain_pull)) with 1700000000000 in Hc, Hu.
  change (TaskRow.serverCreatedAt sample_row_0) with 1699999990100 in Hc, Hu.
  change (TaskRow.serverUpdatedAt sample_row_0) with 1700000000800 in Hu.
  split.
  - apply Hu. lia.
  - intros H. apply Hc in H. lia.
Defined.

Lemma X10_witness :
  pullChanges 1700000001000 malformed_migration_pull sample_db = Err SyntaxError
  /\ pullChanges 1700000001000 unprintable_migration_pull sample_db = Err TypeError
  /\ pullChanges 1700000001000 plain_pull sample_db <> Err SyntaxError.
Proof.
  assert (Hne : migration_unquoted <> EmptyString) by discriminate.
  assert (Hne' : migration_from_object <> EmptyString) by discriminate.
  split; [|split].
  - apply (proj1 (pull_fails_iff 1700000001000 malformed_migration_pull sample_db)).
    split; [reflexivity|]. exists migration_unquoted.
    split; [reflexivity|]. split; [exact Hne | reflexivity].
  - apply (proj1 (proj2 (pull_fails_iff 1700000001000 unprintable_migration_pull
                           sample_db))).
    split; [reflexivity|].
    exists migration_from_object,
      (JS.VObject
         [(JS.code_units "from",
           JS.VObject [(JS.code_units "toString", JS.VNumber (JS.RDec 0 0))])]),
      (JS.VObject [(JS.code_units "toString", JS.VNumber (JS.RDec 0 0))]).
    split; [reflexivity|]. split; [exact Hne'|]. repeat split.
  - intros H.
    apply (proj1 (pull_fails_iff 1700000001000 plain_pull sample_db)) in H.
    destruct H as [H _]. discriminate.
Defined.

Lemma X11_witness :
  (forall r, In r sample_db ->
     TaskRow.serverCreatedAt r <= 1700000001000
     /\ TaskRow.serverUpdatedAt r <= 1700000001000)
  /\ 1700000001000 <> 0
  /\ 1700000001000 <= 1700000001000
  /\ exists out1,
       pullChanges 1700000001000 plain_pull sample_db = Ok out1
       /\ snd (pushChanges None None 1700000001000 sample_push sample_db) <> sample_db
       /\ pullChanges 1700000002000
            (mkPullInput (Some (JS.Num (timestamp out1))) (JS.Num 1) None)
            (snd (pushChanges None None 1700000001000 sample_push sample_db))
          = Ok (empty_response 1700000002000).
Proof.
  assert (HT : 1700000001000 <> 0) by lia.
  assert (Hle : 1700000001000 <= 1700000001000) by lia.
  split; [exact sample_db_stamps|]. split; [exact HT|]. split; [exact Hle|].
  eexists. split; [reflexivity|]. split; [discriminate|].
  exact (pull_misses_writes_at_watermark None None 1700000001000 1700000001000
           1700000002000 (Some (JS.Num 1700000000000)) (JS.Num 1) None _ sample_push
           (JS.Num 1) sample_db sample_db_stamps HT Hle eq_refl).
Defined.

Lemma X12_witness :
  (forall r, In r sample_db ->
     TaskRow.serverCreatedAt r <= 1700000001000
     /\ TaskRow.serverUpdatedAt r <= 1700000001000)
  /\ 1700000001000 <> 0
  /\ 1700000001000 < 1700000010000
  /\ exists db',
       pushChanges None None 1700000010000 sample_push sample_db = (Ok tt, db')
       /\ pullChanges 1700000020000
            (mkPullInput (Some (JS.Num 1700000001000)) (JS.Num 1) None) db'
          = Ok (mkPullOutput
                  (mkChanges
                     (mkTaskChanges
                        (Some (map to_wire
                           (filter (fun r => negb (mem (TaskRow.id r) (ids sample_db)))
                              db')))
                        (Some (map to_wire
                           (filter (fun r => mem (TaskRow.id r) (ids sample_db)
                                             && mem (TaskRow.id r) (mentions sample_push))
                              db')))
                        (Some [])))
                  1700000020000).
Proof.
  assert (Hw : 1700000001000 <> 0) by lia.
  assert (Hlt : 1700000001000 < 1700000010000) by lia.
  split; [exact sample_db_stamps|]. split; [exact Hw|]. split; [exact Hlt|].
  eexists. split; [reflexivity|].
  exact (pull_after_push_reports_the_push None None 1700000001000 1700000010000
           1700000020000 sample_push (JS.Num 1) sample_db _ sample_db_stamps Hw Hlt
           eq_refl).
Defined.

Lemma X13_witness :
  wf_store sample_db
  /\ exists out,
       pullChanges 1700000020000 resync_pull
         (snd (pushChanges None None 1700000010000 sample_push sample_db)) = Ok out
       /\ NoDup (map zTask.id (created_of out))
       /\ NoDup (map zTask.id (updated_of out)).
Proof.
  split; [exact sample_db_wf|]. eexists. split; [reflexivity|].
  exact (pull_lists_have_distinct_ids None None 1700000010000 1700000020000
           sample_push resync_pull sample_db _ sample_db_wf eq_refl).
Defined.

Lemma X14_witness :
  canonical [1; 2]%N
  /\ JS.ge_two (JS.Num 3) = true
  /\ signed_value false [1; 2]%N = 12
  /\ pullChanges 1700000001000
       (mkPullInput (Some (JS.Num 1700000000000)) (JS.Num 3)
          (Some (from_descriptor false [1; 2]%N))) sample_db
     = Ok (mkPullOutput
             (mkChanges
                (mkTaskChanges (Some [to_wire sample_row]) (Some [to_wire sample_row_0])
                   (Some [])))
             1700000001000).
Proof.
  assert (Hc : canonical [1; 2]%N).
  { split.
    - repeat constructor.
    - right. exists 1%N, [2%N]. split; [reflexivity | discriminate]. }
  split; [exact Hc|]. split; [reflexivity|]. split; [reflexivity|].
  rewrite (pull_with_integer_descriptor 1700000001000 (Some (JS.Num 1700000000000))
             (JS.Num 3) false [1; 2]%N sample_db Hc eq_refl).
  reflexivity.
Defined.

Lemma X15_witness :
  In sample_task_2 (or_empty (created (tasks (push_changes sample_push))))
  /\ ~ In (zTask.id sample_task_2) (ids sample_db)
  /\ ~ In (zTask.id sample_task_2)
          (map zTask.id (or_empty (updated (tasks (push_changes sample_push)))))
  /\ exists db',
       pushChanges None None 1700000010000 sample_push sample_db = (Ok tt, db')
       /\ findUnique (zTask.id sample_task_2) db'
          = Some (row_of_create None None (create_of_created 1700000010000 sample_task_2)).
Proof.
  assert (H1 : In sample_task_2 (or_empty (created (tasks (push_changes sample_push)))))
    by (right; now left).
  assert (H2 : ~ In (zTask.id sample_task_2) (ids sample_db)).
  { simpl. intros [E | [E | []]]; discriminate. }
  assert (H3 : ~ In (zTask.id sample_task_2)
                  (map zTask.id (or_empty (updated (tasks (push_changes sample_push))))))
    by (intros []).
  split; [exact H1|]. split; [exact H2|]. split; [exact H3|].
  eexists. split; [reflexivity|].
  exact (proj1 (push_then_find_created None None 1700000010000 sample_push sample_db _
                  sample_task_2 eq_refl H1 H2 H3)).
Defined.

Lemma X16_witness :
  In sample_task (or_empty (created (tasks (push_changes sample_push)))
                  ++ or_empty (updated (tasks (push_changes sample_push))))
  /\ count_occ string_dec (mentions sample_push) (zTask.id sample_task) = 1%nat
  /\ findUnique (zTask.id sample_task) sample_db = Some sample_row
  /\ exists db',
       pushChanges None None 1700000010000 sample_push sample_db = (Ok tt, db')
       /\ findUnique (zTask.id sample_task) db'
          = Some (apply_patch 1700000010000 (patch_of_updated sample_task) sample_row)
       /\ TaskRow.comment
            (apply_patch 1700000010000 (patch_of_updated sample_task) sample_row)
          = Some "2 litres"%string.
Proof.
  assert (H1 : In sample_task
                 (or_empty (created (tasks (push_changes sample_push)))
                  ++ or_empty (updated (tasks (push_changes sample_push)))))
    by (now left).
  split; [exact H1|]. split; [reflexivity|]. split; [reflexivity|].
  eexists. split; [reflexivity|]. split; [|reflexivity].
  exact (proj1 (push_then_find_updated None None 1700000010000 sample_push sample_db _
                  sample_task sample_row eq_refl H1 eq_refl eq_refl)).
Defined.
